(** * exampleKinematicConstraints.py: constraint forces and residuals

    A shallow embedding of the post-solution analysis of
    [Moco/Bindings/Python/examples/exampleKinematicConstraints.py]
    (lines 29-145): the negated Lagrange multiplier, the strided loop over the
    states trajectory, the constraint forces [jac * multiplier[itime]], their
    scaled copy for the arrows, and the residuals of the equations of motion.

    The OpenSim model, the Moco solver, pylab and scipy are collaborators of
    the script; what they hand back (the solution tables, the gravity vector,
    the spline derivative, the states trajectory and the constraint Jacobian)
    is an input of the embedding. *)

From Stdlib Require Import List String ZArith Arith Lia Bool.
From Stdlib Require Import QArith Qcanon Qcabs Ring.
From Stdlib Require Import Floats.PrimFloat Numbers.Cyclic.Int63.Uint63.
From Stdlib Require Import Floats.SpecFloat Floats.FloatOps Floats.FloatAxioms.
Import ListNotations.

Close Scope Qc_scope.
Close Scope Q_scope.
Open Scope nat_scope.
Open Scope list_scope.

Set Implicit Arguments.

(** ** Scalars

    The script computes with Python floats and numpy float64 values.  The
    operations it uses are collected in a class, so that the code is written
    once and read either in binary64 (what the interpreter runs) or in exact
    rational arithmetic (what the formulas of the specification mean). *)

Class Scalar (F : Type) : Type := {
  fdec : Z -> Z -> F;      (* the decimal literal  m * 10^e  *)
  fadd : F -> F -> F;
  fsub : F -> F -> F;
  fmul : F -> F -> F;
  fneg : F -> F;
  fabs : F -> F
}.

(** Python's unary plus on a float is the identity. *)
Definition fpos {F : Type} (x : F) : F := x.

(** *** binary64 *)

Definition float_of_Z (z : Z) : float :=
  match z with
  | Z0 => PrimFloat.of_uint63 0
  | Zpos _ => PrimFloat.of_uint63 (Uint63.of_Z z)
  | Zneg p => PrimFloat.opp (PrimFloat.of_uint63 (Uint63.of_Z (Zpos p)))
  end.

(** A literal with few digits is the correctly rounded quotient (or product)
    of two integers that binary64 holds exactly. *)
Definition float_dec (m e : Z) : float :=
  match e with
  | Z0 => float_of_Z m
  | Zpos p => PrimFloat.mul (float_of_Z m) (float_of_Z (10 ^ Zpos p)%Z)
  | Zneg p => PrimFloat.div (float_of_Z m) (float_of_Z (10 ^ Zpos p)%Z)
  end.

#[export] Instance Binary64 : Scalar float := {
  fdec := float_dec;
  fadd := PrimFloat.add;
  fsub := PrimFloat.sub;
  fmul := PrimFloat.mul;
  fneg := PrimFloat.opp;
  fabs := PrimFloat.abs
}.

(** *** exact rationals *)

Definition Qc_dec (m e : Z) : Qc :=
  Q2Qc (inject_Z m * Qpower (10 # 1) e)%Q.

#[export] Instance Exact : Scalar Qc := {
  fdec := Qc_dec;
  fadd := Qcplus;
  fsub := Qcminus;
  fmul := Qcmult;
  fneg := Qcopp;
  fabs := Qcabs
}.

(** ** Python effects: output, exceptions, a loop that may not end *)

Inductive exn : Type :=
| IndexError      (* a sequence indexed out of range *)
| RuntimeError.   (* an OpenSim exception, as the bindings surface it *)

Inductive outcome (A : Type) : Type :=
| Returned (a : A)
| Raised (e : exn)
| Diverged.

Arguments Raised {A} e.
Arguments Diverged {A}.

Section Effects.
Variable E : Type.   (* what the program shows: prints and pylab calls *)

Definition M (A : Type) : Type := (list E * outcome A)%type.

Definition ret {A} (a : A) : M A := ([], Returned a).
Definition raise {A} (e : exn) : M A := ([], Raised e).
Definition emit (ev : E) : M unit := ([ev], Returned tt).

(** [c] after the output [evs]. *)
Definition prepend {A} (evs : list E) (c : M A) : M A :=
  (evs ++ fst c, snd c).

Definition bind {A B} (c : M A) (k : A -> M B) : M B :=
  match snd c with
  | Returned a => prepend (fst c) (k a)
  | Raised e => (fst c, Raised e)
  | Diverged => (fst c, Diverged)
  end.

(** [l[i]] for a list, tuple or 1-D numpy array and [i >= 0]. *)
Definition getitem {A} (l : list A) (i : nat) : M A :=
  match nth_error l i with
  | Some a => ret a
  | None => raise IndexError
  end.
End Effects.

Arguments ret {E A} a.
Arguments raise {E A} e.
Arguments emit {E} ev.
Arguments prepend {E A} evs c.
Arguments bind {E A B} c k.
Arguments getitem {E A} l i.

Notation "x <- c ;; k" := (bind c (fun x => k))
  (at level 61, c at next level, right associativity).
Notation "c ;;; k" := (bind c (fun _ => k))
  (at level 61, right associativity).

(** ** The solution and the collaborators *)

Section Script.
Context {F : Type} {SF : Scalar F}.

(** [osim.Vec3] and its [v[i]]. *)
Record Vec3 : Type := { vec_x : F; vec_y : F; vec_z : F }.

Definition Vec3_getitem (v : Vec3) (i : nat) : F :=
  match i with
  | 0 => vec_x v
  | 1 => vec_y v
  | _ => vec_z v
  end.

(** [osim.Matrix], read through [get(i, j)]. *)
Definition Matrix : Type := nat -> nat -> F.

(** A [MocoSolution]: the time column and the named state and multiplier
    columns, in the order of the tables. *)
Record MocoTrajectory : Type := {
  getTimeMat : list F;
  state_columns : list (string * list F);
  multiplier_columns : list (string * list F)
}.

Fixpoint column (name : string) (tbl : list (string * list F))
  : option (list F) :=
  match tbl with
  | [] => None
  | (n, v) :: rest => if String.eqb n name then Some v else column name rest
  end.

Definition getMultiplierNames (s : MocoTrajectory) : list string :=
  map fst (multiplier_columns s).

(** What the script prints and draws. *)
Inductive event : Type :=
| PrintSkippingPlotting
| Figure                               (* lines 93-96 *)
| PrintNumberOfMultipliers (n : nat)
| SetAspectEqual
| Plot (xs ys : list F)
| Arrow (x y dx dy : F)
| PrintResiduals (t rx ry : F)
| Show.

Definition getStateMat (s : MocoTrajectory) (name : string)
  : M event (list F) :=
  match column name (state_columns s) with
  | Some v => ret v
  | None => raise RuntimeError
  end.

Definition getMultiplierMat (s : MocoTrajectory) (name : string)
  : M event (list F) :=
  match column name (multiplier_columns s) with
  | Some v => ret v
  | None => raise RuntimeError
  end.

(** The collaborators of the script. *)
Record Externals : Type := {
  State : Type;
  (* model.get_gravity() of the model built in lines 32-67 *)
  get_gravity : Vec3;
  (* whether lines 86-87 import pylab and scipy *)
  imports_succeed : bool;
  (* InterpolatedUnivariateSpline(x, y)(query, nu) *)
  InterpolatedUnivariateSpline : list F -> list F -> list F -> nat -> list F;
  (* solution.exportToStatesTrajectory(model) *)
  exportToStatesTrajectory : MocoTrajectory -> list State;
  (* matter.calcPq(state, constraintJacobian) *)
  calcPq : State -> Matrix
}.

Variable ext : Externals.
Variable solution : MocoTrajectory.

(** Lines 34 and 38. *)
Definition g : F := fabs (Vec3_getitem (get_gravity ext) 1).
Definition mass : F := fdec 10 (-1).

(** The values the loop body binds (lines 121-139). *)
Record Locals : Type := {
  jac : list F;
  constraintForces : list F;
  constraintForcesViz : list F;
  residualx : F;
  residualy : F
}.

Section Loop.
Variable sampleStride : nat.     (* 10 in line 143 *)
Variable forceVizScale : F.      (* 0.010 in line 133 *)
Variables time tx ty multiplier accelx accely : list F.
Variable statesTraj : list (State ext).

(** Lines 121-141, one pass of the loop. *)
Definition loop_body (itime : nat) : M event Locals :=
  state <- getitem statesTraj itime ;;
  let constraintJacobian := calcPq ext state in
  let jac := [constraintJacobian 0 0; constraintJacobian 1 0] in
  m <- getitem multiplier itime ;;
  let constraintForces := map (fun j => fmul j m) jac in
  let constraintForcesViz := map (fmul forceVizScale) constraintForces in
  x <- getitem tx itime ;;
  y <- getitem ty itime ;;
  v0 <- getitem constraintForcesViz 0 ;;
  v1 <- getitem constraintForcesViz 1 ;;
  emit (Arrow x y v0 v1) ;;;
  f0 <- getitem constraintForces 0 ;;
  ax <- getitem accelx itime ;;
  let residualx := fsub (fpos f0) (fmul mass ax) in
  f1 <- getitem constraintForces 1 ;;
  ay <- getitem accely itime ;;
  let residualy := fsub (fadd (fmul (fneg mass) g) f1) (fmul mass ay) in
  t <- getitem time itime ;;
  emit (PrintResiduals t residualx residualy) ;;;
  ret {| jac := jac;
         constraintForces := constraintForces;
         constraintForcesViz := constraintForcesViz;
         residualx := residualx;
         residualy := residualy |}.

(** Lines 119-143: [while itime < statesTraj.getSize(): ...; itime += 10].
    [fuel] bounds the number of passes; a loop that still wants to run
    when it is spent has [Diverged]. *)
Fixpoint while_loop (fuel itime : nat) : M event unit :=
  if itime <? List.length statesTraj then
    match fuel with
    | 0 => ([], Diverged)
    | S fuel' =>
        loop_body itime ;;; while_loop fuel' (itime + sampleStride)
    end
  else ret tt.
End Loop.

(** Lines 93-145, the branch under [if has_pylab]. *)
Definition analysis (sampleStride : nat) (forceVizScale : F)
  : M event unit :=
  emit Figure ;;;
  let time := getTimeMat solution in
  tx <- getStateMat solution "/jointset/tx/tx/value" ;;
  ty <- getStateMat solution "/jointset/ty/ty/value" ;;
  name0 <- getitem (getMultiplierNames solution) 0 ;;
  lambda <- getMultiplierMat solution name0 ;;
  let multiplier := map fneg lambda in
  emit (PrintNumberOfMultipliers
          (List.length (getMultiplierNames solution))) ;;;
  emit SetAspectEqual ;;;
  emit (Plot tx ty) ;;;
  let accelx := InterpolatedUnivariateSpline ext time tx time 2 in
  let accely := InterpolatedUnivariateSpline ext time ty time 2 in
  let statesTraj := exportToStatesTrajectory ext solution in
  while_loop sampleStride forceVizScale time tx ty multiplier accelx accely
             statesTraj (List.length statesTraj) 0 ;;;
  emit Show.

(** Lines 84-92 with the stride and the scale left open. *)
Definition run (sampleStride : nat) (forceVizScale : F) : M event unit :=
  has_pylab <- (if imports_succeed ext then ret true
                else emit PrintSkippingPlotting ;;; ret false) ;;
  if has_pylab : bool then analysis sampleStride forceVizScale else ret tt.

(** The script as written: every 10th sample, arrows scaled by 0.010. *)
Definition script : M event unit := run 10 (fdec 10 (-3)).

End Script.

Arguments Externals F : clear implicits.
Arguments MocoTrajectory F : clear implicits.
Arguments event F : clear implicits.

Unset Implicit Arguments.

(** ** Strided indices *)

(** The number of indices [0, k, 2k, ...] below [n]. *)
Definition ceil_div (n k : nat) : nat := (n + k - 1) / k.

(** ** Solutions the script can read *)

(** A solution whose columns the script finds: the two coordinate columns,
    a first multiplier column [lam] under the name [name0], and [N] entries in
    the time column, in each coordinate column, in each acceleration column
    and in the states trajectory.  The length of [lam] is left open. *)
Record well_formed {F : Type} (ext : Externals F) (sol : MocoTrajectory F)
    (N : nat) (tx ty : list F) (name0 : string) (lam : list F)
    (rest : list (string * list F)) : Prop := {
  wf_time : List.length (getTimeMat sol) = N;
  wf_tx : column "/jointset/tx/tx/value" (state_columns sol) = Some tx;
  wf_ty : column "/jointset/ty/ty/value" (state_columns sol) = Some ty;
  wf_multipliers : multiplier_columns sol = (name0, lam) :: rest;
  wf_tx_length : List.length tx = N;
  wf_ty_length : List.length ty = N;
  wf_accelx :
    List.length (InterpolatedUnivariateSpline ext (getTimeMat sol) tx
                   (getTimeMat sol) 2) = N;
  wf_accely :
    List.length (InterpolatedUnivariateSpline ext (getTimeMat sol) ty
                   (getTimeMat sol) 2) = N;
  wf_states : List.length (exportToStatesTrajectory ext sol) = N
}.

(** ** What the output holds *)

Section Observations.
Context {F : Type}.

(** The residual lines of the output, [(time, residualx, residualy)]. *)
Definition residual_lines (evs : list (event F)) : list (F * F * F) :=
  flat_map (fun ev => match ev with
                      | PrintResiduals t rx ry => [(t, rx, ry)]
                      | _ => []
                      end) evs.

(** The arrows of the output, [(x, y, dx, dy)]. *)
Definition arrows (evs : list (event F)) : list (F * F * F * F) :=
  flat_map (fun ev => match ev with
                      | Arrow x y dx dy => [(x, y, dx, dy)]
                      | _ => []
                      end) evs.

(** The time a residual line starts with. *)
Definition line_time (l : F * F * F) : F := fst (fst l).

(** How a computation ended, without what it returned. *)
Definition status {A : Type} (o : outcome A) : outcome unit :=
  match o with
  | Returned _ => Returned tt
  | Raised e => Raised e
  | Diverged => Diverged
  end.

(** Two computations that print the same residual lines and end alike. *)
Definition same_lines {A B : Type} (c1 : M (event F) A) (c2 : M (event F) B)
  : Prop :=
  residual_lines (fst c1) = residual_lines (fst c2) /\
  status (snd c1) = status (snd c2).

(** The line 'Number of multipliers: n' of line 102. *)
Definition is_count (ev : event F) : bool :=
  match ev with
  | PrintNumberOfMultipliers _ => true
  | _ => false
  end.

(** The output without that line. *)
Definition without_count (evs : list (event F)) : list (event F) :=
  filter (fun ev => negb (is_count ev)) evs.

(** Two computations that differ at most in that line. *)
Definition same_but_count {A : Type} (c1 c2 : M (event F) A) : Prop :=
  without_count (fst c1) = without_count (fst c2) /\ snd c1 = snd c2.

End Observations.

(** ** The formulas of the specification *)

Section Formulas.
Context {F : Type} {SF : Scalar F}.

(** [F_constraint = J * mult_i], componentwise. *)
Definition F_constraint (J : F * F) (mult : F) : F * F :=
  (fmul (fst J) mult, fmul (snd J) mult).

(** [residual_tx = F_constraint.x - mass * accelx_i]. *)
Definition residual_tx (m : F) (Fc : F * F) (ax : F) : F :=
  fsub (fst Fc) (fmul m ax).

(** [residual_ty = -mass * gravity + F_constraint.y - mass * accely_i]. *)
Definition residual_ty (m gravity : F) (Fc : F * F) (ay : F) : F :=
  fsub (fadd (fmul (fneg m) gravity) (snd Fc)) (fmul m ay).

(** The line the specification expects for sample [i], from the time
    column, the sign-adjusted multiplier column, the two acceleration columns
    and the Jacobian at the [i]-th state. *)
Definition expected_line (ext : Externals F)
    (time mult ax ay : list F) (states : list (State ext)) (i : nat)
  : option (F * F * F) :=
  match nth_error time i, nth_error mult i,
        nth_error ax i, nth_error ay i, nth_error states i with
  | Some t, Some m, Some a_x, Some a_y, Some st =>
      let Fc := F_constraint (calcPq ext st 0 0, calcPq ext st 1 0) m in
      Some (t, residual_tx mass Fc a_x, residual_ty mass (g ext) Fc a_y)
  | _, _, _, _, _ => None
  end.

End Formulas.

(** ** A point mass on the parabola, for concrete runs *)

Section Parabola.
Context {F : Type} {SF : Scalar F}.

(** Collaborators for the model of the script: gravity [(0, -9.8, 0)], a
    state that holds [(tx, ty)], the Jacobian [[2 * tx, -1]] of
    [ty = tx^2], and a stand-in estimator that answers 2 at every query
    point. *)
Definition parabola_ext (imports : bool) : Externals F :=
  {| State := (F * F)%type;
     get_gravity := {| vec_x := fdec 0 0;
                       vec_y := fneg (fdec 98 (-1));
                       vec_z := fdec 0 0 |};
     imports_succeed := imports;
     InterpolatedUnivariateSpline := fun _ _ q _ => map (fun _ => fdec 2 0) q;
     exportToStatesTrajectory := fun s =>
       match column "/jointset/tx/tx/value" (state_columns s),
             column "/jointset/ty/ty/value" (state_columns s) with
       | Some xs, Some ys => combine xs ys
       | _, _ => []
       end;
     calcPq := fun st i _ =>
       match i with
       | 0 => fmul (fdec 2 0) (fst st)
       | _ => fneg (fdec 1 0)
       end |}.

(** [n] samples at [t = 0, 0.1, 0.2, ...] of [tx = t^2], [ty = tx^2], with
    the multiplier columns [cols]. *)
Definition parabola_solution (n : nat) (cols : list (string * list F))
  : MocoTrajectory F :=
  let time := map (fun i => fdec (Z.of_nat i) (-1)) (seq 0 n) in
  let tx := map (fun t => fmul t t) time in
  let ty := map (fun x => fmul x x) tx in
  {| getTimeMat := time;
     state_columns := [("/jointset/tx/tx/value"%string, tx);
                       ("/jointset/ty/ty/value"%string, ty)];
     multiplier_columns := cols |}.

Definition parabola_tx (n : nat) : list F :=
  map (fun t => fmul t t) (map (fun i => fdec (Z.of_nat i) (-1)) (seq 0 n)).

Definition parabola_ty (n : nat) : list F :=
  map (fun x => fmul x x) (parabola_tx n).

Definition constant_column (n : nat) (v : F) : list F := repeat v n.

End Parabola.

Definition lambda_name : string := "/constraintset/cid_0/lambda_0".

(** ** The concrete scenario *)

(** A pass on the parabola with gravity 9.8, at a sample where [tx = 1],
    the sign-adjusted multiplier is 3 and the accelerations are 2 and 12:
    the constraint forces are [[6, -3]] and the residuals 4 and -24.8. *)
Definition concrete_scenario (F : Type) (SF : Scalar F) : Prop :=
  forall (imports : bool) (viz : F)
         (time tx ty multiplier accelx accely : list F)
         (statesTraj : list (F * F)) (i : nat) (ty_i x y t : F),
    nth_error statesTraj i = Some (fdec 1 0, ty_i) ->
    nth_error multiplier i = Some (fdec 3 0) ->
    nth_error tx i = Some x ->
    nth_error ty i = Some y ->
    nth_error accelx i = Some (fdec 2 0) ->
    nth_error accely i = Some (fdec 12 0) ->
    nth_error time i = Some t ->
    exists evs l,
      loop_body (parabola_ext imports) viz time tx ty multiplier
                accelx accely statesTraj i = (evs, Returned l) /\
      jac l = [fdec 2 0; fdec (-1) 0] /\
      constraintForces l = [fdec 6 0; fdec (-3) 0] /\
      residualx l = fdec 4 0 /\
      residualy l = fdec (-248) (-1) /\
      residual_lines evs = [(t, fdec 4 0, fdec (-248) (-1))].

(** ** The shape of the loop's output *)

Section Traces.
Context {F : Type}.

(** What a pass of the loop shows: an arrow, then a residual line. *)
Definition sample_events (a : F * F * F * F) (l : F * F * F)
  : list (event F) :=
  let '(x, y, dx, dy) := a in
  let '(t, rx, ry) := l in
  [Arrow x y dx dy; PrintResiduals t rx ry].

Definition is_sample (ev : event F) : bool :=
  match ev with
  | Arrow _ _ _ _ | PrintResiduals _ _ _ => true
  | _ => false
  end.

Definition is_show (ev : event F) : bool :=
  match ev with
  | Show => true
  | _ => false
  end.

(** The outputs and ends the loop of lines 119-143 can have: whole passes,
    and then the end of the trajectory, spent fuel, or an [IndexError]
    either before the arrow of a pass (lines 130-134) or between its arrow
    and its residual line (lines 138-141). *)
Inductive loop_trace : list (event F) -> outcome unit -> Prop :=
| trace_done : loop_trace [] (Returned tt)
| trace_spent : loop_trace [] Diverged
| trace_raise : loop_trace [] (Raised IndexError)
| trace_raise_after_arrow : forall x y dx dy,
    loop_trace [Arrow x y dx dy] (Raised IndexError)
| trace_pass : forall a l evs o,
    loop_trace evs o -> loop_trace (sample_events a l ++ evs) o.

End Traces.

(** ** The arrows and the solutions of the library *)

Section Arrows.
Context {F : Type} {SF : Scalar F}.

(** The arrow of sample [i] (lines 130-135), from the two coordinate
    columns, the sign-adjusted multiplier column and the Jacobian at the
    [i]-th state. *)
Definition expected_arrow (ext : Externals F) (viz : F)
    (tx ty mult : list F) (states : list (State ext)) (i : nat)
  : option (F * F * F * F) :=
  match nth_error tx i, nth_error ty i, nth_error mult i,
        nth_error states i with
  | Some x, Some y, Some m, Some st =>
      Some (x, y, fmul viz (fmul (calcPq ext st 0 0) m),
            fmul viz (fmul (calcPq ext st 1 0) m))
  | _, _, _, _ => None
  end.

(** An arrow of the output as the event it came from. *)
Definition arrow_event (a : F * F * F * F) : event F :=
  let '(x, y, dx, dy) := a in Arrow x y dx dy.


End Arrows.

(** ** Negating the multiplier column *)



(** * Properties *)

(** ** Laws of the effects *)

Section EffectLaws.
Variable E : Type.

Lemma bind_ret_l : forall (A B : Type) (a : A) (k : A -> M E B),
  bind (ret a) k = k a.
Proof.
  intros A B a k. unfold bind, ret, prepend. simpl. now destruct (k a).
Qed.

Lemma bind_returned :
  forall (A B : Type) (c : M E A) (a : A) (k : A -> M E B),
  snd c = Returned a ->
  bind c k = (fst c ++ fst (k a), snd (k a)).
Proof.
  intros A B c a k Hc. unfold bind. now rewrite Hc.
Qed.

Lemma bind_raised :
  forall (A B : Type) (c : M E A) (e : exn) (k : A -> M E B),
  snd c = Raised e ->
  bind c k = (fst c, Raised e).
Proof.
  intros A B c e k Hc. unfold bind. now rewrite Hc.
Qed.

Lemma bind_raise : forall (A B : Type) (e : exn) (k : A -> M E B),
  bind (raise e) k = raise e.
Proof. reflexivity. Qed.

Lemma bind_emit : forall (B : Type) (ev : E) (k : unit -> M E B),
  bind (emit ev) k = prepend [ev] (k tt).
Proof. reflexivity. Qed.

Lemma getitem_Some : forall (A : Type) (l : list A) (i : nat) (a : A),
  nth_error l i = Some a -> getitem l i = ret (E := E) a.
Proof.
  intros A l i a H. unfold getitem. now rewrite H.
Qed.

Lemma getitem_None : forall (A : Type) (l : list A) (i : nat),
  List.length l <= i -> getitem l i = raise (E := E) IndexError.
Proof.
  intros A l i H. unfold getitem.
  now rewrite (proj2 (nth_error_None l i) H).
Qed.
End EffectLaws.

(** ** Strided indices, facts *)

Lemma ceil_div_spec : forall n k j,
  0 < k -> (j < ceil_div n k <-> k * j < n).
Proof.
  intros n k j Hk. unfold ceil_div. split; intro H.
  - assert (Hle : k * S j <= n + k - 1).
    { transitivity (k * ((n + k - 1) / k)).
      - apply Nat.mul_le_mono_l. lia.
      - apply Nat.Div0.mul_div_le. }
    lia.
  - apply Nat.div_le_lower_bound; lia.
Qed.

Lemma ceil_div_le : forall n k, 0 < k -> ceil_div n k <= n.
Proof.
  intros n k Hk.
  destruct (Nat.le_gt_cases (ceil_div n k) n) as [H | H]; [exact H |].
  apply (ceil_div_spec n k n Hk) in H. nia.
Qed.

Lemma ceil_div_reached : forall n k, 0 < k -> n <= k * ceil_div n k.
Proof.
  intros n k Hk.
  destruct (Nat.le_gt_cases n (k * ceil_div n k)) as [H | H]; [exact H |].
  apply (ceil_div_spec n k _ Hk) in H. lia.
Qed.

Lemma ceil_div_mono : forall m n k,
  0 < k -> m <= n -> ceil_div m k <= ceil_div n k.
Proof.
  intros m n k Hk Hmn. unfold ceil_div.
  apply Nat.Div0.div_le_mono. lia.
Qed.

(** ** The loop, pass by pass *)

Section LoopFacts.
Context {F : Type} {SF : Scalar F}.
Variable ext : Externals F.
Variable k : nat.
Variable viz : F.
Variables time tx ty multiplier accelx accely : list F.
Variable statesTraj : list (State ext).

Local Abbreviation body :=
  (loop_body ext viz time tx ty multiplier accelx accely statesTraj).
Local Abbreviation loop :=
  (while_loop ext k viz time tx ty multiplier accelx accely statesTraj).

(** What one pass shows and binds when every index is in range. *)
Lemma loop_body_returned :
  forall i st m x y ax ay t,
    nth_error statesTraj i = Some st ->
    nth_error multiplier i = Some m ->
    nth_error tx i = Some x ->
    nth_error ty i = Some y ->
    nth_error accelx i = Some ax ->
    nth_error accely i = Some ay ->
    nth_error time i = Some t ->
    let J0 := calcPq ext st 0 0 in
    let J1 := calcPq ext st 1 0 in
    let rx := fsub (fmul J0 m) (fmul mass ax) in
    let ry := fsub (fadd (fmul (fneg mass) (g ext)) (fmul J1 m))
                   (fmul mass ay) in
    body i =
    ([Arrow x y (fmul viz (fmul J0 m)) (fmul viz (fmul J1 m));
      PrintResiduals t rx ry],
     Returned {| jac := [J0; J1];
                 constraintForces := [fmul J0 m; fmul J1 m];
                 constraintForcesViz :=
                   [fmul viz (fmul J0 m); fmul viz (fmul J1 m)];
                 residualx := rx;
                 residualy := ry |}).
Proof.
  intros i st m x y ax ay t Hst Hm Hx Hy Hax Hay Ht J0 J1 rx ry.
  unfold loop_body.
  rewrite (getitem_Some _ _ _ _ _ Hst), bind_ret_l.
  rewrite (getitem_Some _ _ _ _ _ Hm), bind_ret_l.
  rewrite (getitem_Some _ _ _ _ _ Hx), bind_ret_l.
  rewrite (getitem_Some _ _ _ _ _ Hy), bind_ret_l.
  cbn [map getitem nth_error]. rewrite !bind_ret_l, bind_emit.
  rewrite (getitem_Some _ _ _ _ _ Hax), bind_ret_l.
  rewrite (getitem_Some _ _ _ _ _ Hay), bind_ret_l.
  rewrite (getitem_Some _ _ _ _ _ Ht), bind_ret_l.
  reflexivity.
Qed.

(** A multiplier column that ends before [i] stops the pass at line 130,
    before anything is drawn or printed. *)
Lemma loop_body_short_multiplier :
  forall i st,
    nth_error statesTraj i = Some st ->
    List.length multiplier <= i ->
    body i = ([], Raised IndexError).
Proof.
  intros i st Hst Hm. unfold loop_body.
  rewrite (getitem_Some _ _ _ _ _ Hst), bind_ret_l.
  rewrite (getitem_None _ _ _ _ Hm). reflexivity.
Qed.

(** [n] passes that return, then the rest of the loop. *)
Lemma while_loop_passes :
  forall n fuel j,
    (forall j', j <= j' < j + n ->
                k * j' < List.length statesTraj /\
                exists l, snd (body (k * j')) = Returned l) ->
    loop (n + fuel) (k * j) =
    (flat_map (fun i => fst (body i)) (map (Nat.mul k) (seq j n))
       ++ fst (loop fuel (k * (j + n))),
     snd (loop fuel (k * (j + n)))).
Proof.
  induction n as [| n IH]; intros fuel j Hok.
  - simpl. rewrite Nat.add_0_r. now destruct (loop fuel (k * j)).
  - destruct (Hok j ltac:(lia)) as [Hlt [l Hl]].
    change (loop (S n + fuel) (k * j)) with
      (if k * j <? List.length statesTraj
       then body (k * j) ;;; loop (n + fuel) (k * j + k)
       else ret tt).
    rewrite (proj2 (Nat.ltb_lt _ _) Hlt).
    rewrite (bind_returned _ _ _ _ l _ Hl).
    replace (k * j + k) with (k * S j) by lia.
    rewrite IH by (intros j' Hj'; apply Hok; lia).
    replace (S j + n) with (j + S n) by lia.
    cbn [seq map flat_map fst snd]. now rewrite app_assoc.
Qed.

(** Past the last state the loop has ended. *)
Lemma while_loop_done :
  forall fuel i, List.length statesTraj <= i -> loop fuel i = ret tt.
Proof.
  intros fuel i Hi.
  destruct fuel; simpl;
    now rewrite (proj2 (Nat.ltb_ge _ _) Hi).
Qed.

(** A pass that raises ends the loop with what it had shown. *)
Lemma while_loop_raise :
  forall fuel i e,
    i < List.length statesTraj ->
    snd (body i) = Raised e ->
    loop (S fuel) i = (fst (body i), Raised e).
Proof.
  intros fuel i e Hi He. simpl.
  rewrite (proj2 (Nat.ltb_lt _ _) Hi).
  now apply bind_raised.
Qed.

End LoopFacts.

(** ** The whole analysis *)

Lemma column_head : forall (F : Type) (n : string) (v : list F) rest,
  column n ((n, v) :: rest) = Some v.
Proof.
  intros F n v rest. simpl. now rewrite String.eqb_refl.
Qed.

Lemma nth_error_in_range : forall (A : Type) (l : list A) (i : nat),
  i < List.length l -> exists a, nth_error l i = Some a.
Proof.
  intros A l i Hi. destruct (nth_error l i) as [a |] eqn:E.
  - now exists a.
  - apply nth_error_None in E. lia.
Qed.

Section Analysis.
Context {F : Type} {SF : Scalar F}.
Variable ext : Externals F.
Variable sol : MocoTrajectory F.
Variable N : nat.
Variables tx ty : list F.
Variable name0 : string.
Variable lam : list F.
Variable rest : list (string * list F).
Hypothesis Hwf : well_formed ext sol N tx ty name0 lam rest.
Variable k : nat.
Variable viz : F.

Local Abbreviation time := (getTimeMat sol).
Local Abbreviation accelx := (InterpolatedUnivariateSpline ext time tx time 2).
Local Abbreviation accely := (InterpolatedUnivariateSpline ext time ty time 2).
Local Abbreviation statesTraj := (exportToStatesTrajectory ext sol).
Local Abbreviation body :=
  (loop_body ext viz time tx ty (map fneg lam) accelx accely statesTraj).
Local Abbreviation loop :=
  (while_loop ext k viz time tx ty (map fneg lam) accelx accely statesTraj).

(** Lines 93-118 find their columns; the loop and [pl.show()] remain. *)
Lemma analysis_preamble :
  analysis ext sol k viz =
  ([Figure; PrintNumberOfMultipliers (S (List.length rest));
    SetAspectEqual; Plot tx ty]
     ++ fst (loop N 0 ;;; emit Show),
   snd (loop N 0 ;;; emit Show)).
Proof.
  destruct Hwf as [_ Htx Hty Hm _ _ _ _ Hs].
  unfold analysis, getStateMat, getMultiplierMat, getMultiplierNames.
  rewrite Htx, Hty, Hm, Hs. cbn [map fst getitem nth_error].
  rewrite !bind_emit, !bind_ret_l, column_head, bind_ret_l.
  cbn [List.length]. rewrite List.length_map.
  reflexivity.
Qed.

(** Every index below both [N] and the length of the multiplier column gives
    a pass that returns. *)
Lemma pass_returns :
  forall i, i < N -> i < List.length lam ->
    exists st m x y ax ay t,
      nth_error statesTraj i = Some st /\
      nth_error (map fneg lam) i = Some m /\
      nth_error tx i = Some x /\
      nth_error ty i = Some y /\
      nth_error accelx i = Some ax /\
      nth_error accely i = Some ay /\
      nth_error time i = Some t.
Proof.
  intros i Hi Hl.
  destruct Hwf as [Ht _ _ _ Hx Hy Hax Hay Hs].
  destruct (nth_error_in_range _ statesTraj i) as [st Hst]; [lia |].
  destruct (nth_error_in_range _ (map fneg lam) i) as [m Hm];
    [rewrite List.length_map; lia |].
  destruct (nth_error_in_range _ tx i) as [x Hx']; [lia |].
  destruct (nth_error_in_range _ ty i) as [y Hy']; [lia |].
  destruct (nth_error_in_range _ accelx i) as [ax Hax']; [lia |].
  destruct (nth_error_in_range _ accely i) as [ay Hay']; [lia |].
  destruct (nth_error_in_range _ time i) as [t Ht']; [lia |].
  exists st, m, x, y, ax, ay, t. repeat split; assumption.
Qed.

(** The loop in closed form: the passes at [0, k, 2k, ...] below both [N]
    and the length of the multiplier column, then either the end of the
    trajectory or the [IndexError] of line 130. *)
Lemma while_loop_closed_form :
  0 < k ->
  let c := ceil_div (Nat.min (List.length lam) N) k in
  loop N 0 =
  (flat_map (fun i => fst (body i)) (map (Nat.mul k) (seq 0 c)),
   if k * c <? N then Raised IndexError else Returned tt).
Proof.
  intros Hk c.
  assert (Hs : List.length statesTraj = N) by apply Hwf.
  assert (Hc : forall j, j < c <-> k * j < Nat.min (List.length lam) N)
    by (intro j; now apply ceil_div_spec).
  assert (HcN : c <= N).
  { transitivity (ceil_div N k).
    - apply ceil_div_mono; lia.
    - now apply ceil_div_le. }
  assert (Hreach : Nat.min (List.length lam) N <= k * c)
    by now apply ceil_div_reached.
  assert (Hsplit : loop N 0 = loop (c + (N - c)) (k * 0))
    by (f_equal; lia).
  rewrite Hsplit, while_loop_passes.
  - cbn [Nat.add].
    destruct (k * c <? N) eqn:E.
    + apply Nat.ltb_lt in E.
      destruct (nth_error_in_range _ statesTraj (k * c)) as [st Hst];
        [lia |].
      assert (Hb : body (k * c) = ([], Raised IndexError)).
      { apply loop_body_short_multiplier with (st := st); [exact Hst |].
        rewrite List.length_map. lia. }
      assert (HS : N - c = S (N - c - 1)) by nia.
      rewrite HS, while_loop_raise with (e := IndexError).
      * rewrite Hb. simpl. now rewrite app_nil_r.
      * lia.
      * now rewrite Hb.
    + apply Nat.ltb_ge in E.
      rewrite while_loop_done by lia.
      simpl. now rewrite app_nil_r.
  - intros j' Hj'. assert (Hlt : k * j' < Nat.min (List.length lam) N)
      by (apply Hc; lia).
    split; [lia |].
    destruct (pass_returns (k * j')) as (st & m & x & y & ax & ay & t & H);
      [lia | lia |].
    destruct H as (H1 & H2 & H3 & H4 & H5 & H6 & H7).
    eexists.
    rewrite loop_body_returned
      with (st := st) (m := m) (x := x) (y := y) (ax := ax) (ay := ay)
           (t := t) by assumption.
    reflexivity.
Qed.

(** The script with pylab at hand. *)
Lemma run_closed_form :
  imports_succeed ext = true ->
  0 < k ->
  let c := ceil_div (Nat.min (List.length lam) N) k in
  run ext sol k viz =
  ([Figure; PrintNumberOfMultipliers (S (List.length rest));
    SetAspectEqual; Plot tx ty]
     ++ flat_map (fun i => fst (body i)) (map (Nat.mul k) (seq 0 c))
     ++ (if k * c <? N then [] else [Show]),
   if k * c <? N then Raised IndexError else Returned tt).
Proof.
  intros Himp Hk c. unfold run. rewrite Himp, bind_ret_l.
  rewrite analysis_preamble, (while_loop_closed_form Hk).
  fold c. destruct (k * c <? N); unfold bind, prepend; cbn [fst snd emit];
    now rewrite ?app_nil_r.
Qed.

End Analysis.

(** ** Reading the output *)

Section Output.
Context {F : Type}.

Lemma residual_lines_app : forall evs evs' : list (event F),
  residual_lines (evs ++ evs') = residual_lines evs ++ residual_lines evs'.
Proof. intros. apply flat_map_app. Qed.

Lemma arrows_app : forall evs evs' : list (event F),
  arrows (evs ++ evs') = arrows evs ++ arrows evs'.
Proof. intros. apply flat_map_app. Qed.

(** Passes that print one line each print the lines of their indices. *)
Lemma residual_lines_passes :
  forall (f : nat -> list (event F)) (line : nat -> option (F * F * F)) l,
    (forall i, In i l ->
               exists x, line i = Some x /\ residual_lines (f i) = [x]) ->
    map Some (residual_lines (flat_map f l)) = map line l.
Proof.
  intros f line l. induction l as [| i l IH]; intros H; [reflexivity |].
  destruct (H i (or_introl eq_refl)) as [x [Hx Hf]].
  cbn [flat_map map]. rewrite residual_lines_app, Hf, Hx.
  cbn [app map]. f_equal. apply IH. intros i' Hi'. apply H. now right.
Qed.

Lemma arrows_passes :
  forall (f : nat -> list (event F)) (arrow : nat -> option (F * F * F * F)) l,
    (forall i, In i l ->
               exists x, arrow i = Some x /\ arrows (f i) = [x]) ->
    map Some (arrows (flat_map f l)) = map arrow l.
Proof.
  intros f arrow l. induction l as [| i l IH]; intros H; [reflexivity |].
  destruct (H i (or_introl eq_refl)) as [x [Hx Hf]].
  cbn [flat_map map]. rewrite arrows_app, Hf, Hx.
  cbn [app map]. f_equal. apply IH. intros i' Hi'. apply H. now right.
Qed.

End Output.

(** ** The residual lines of a run *)

Section Lines.
Context {F : Type} {SF : Scalar F}.
Variable ext : Externals F.
Variable sol : MocoTrajectory F.
Variable N : nat.
Variables tx ty : list F.
Variable name0 : string.
Variable lam : list F.
Variable rest : list (string * list F).
Hypothesis Hwf : well_formed ext sol N tx ty name0 lam rest.
Variable k : nat.
Variable viz : F.

Local Abbreviation time := (getTimeMat sol).
Local Abbreviation accelx := (InterpolatedUnivariateSpline ext time tx time 2).
Local Abbreviation accely := (InterpolatedUnivariateSpline ext time ty time 2).
Local Abbreviation statesTraj := (exportToStatesTrajectory ext sol).
Local Abbreviation body :=
  (loop_body ext viz time tx ty (map fneg lam) accelx accely statesTraj).
Local Abbreviation expected :=
  (expected_line ext time (map fneg lam) accelx accely statesTraj).

(** A pass in range prints the line the formulas give, and only that. *)
Lemma pass_line :
  forall i, i < N -> i < List.length lam ->
    exists x, expected i = Some x /\ residual_lines (fst (body i)) = [x].
Proof.
  intros i Hi Hl.
  destruct (pass_returns ext sol N tx ty name0 lam rest Hwf i Hi Hl)
    as (st & m & x & y & ax & ay & t & H1 & H2 & H3 & H4 & H5 & H6 & H7).
  rewrite loop_body_returned
    with (st := st) (m := m) (x := x) (y := y) (ax := ax) (ay := ay)
         (t := t) by assumption.
  unfold expected_line. rewrite H1, H2, H5, H6, H7.
  eexists. split; reflexivity.
Qed.

(** A pass in range draws one arrow. *)
Lemma pass_arrow :
  forall i, i < N -> i < List.length lam ->
    exists a, arrows (fst (body i)) = [a].
Proof.
  intros i Hi Hl.
  destruct (pass_returns ext sol N tx ty name0 lam rest Hwf i Hi Hl)
    as (st & m & x & y & ax & ay & t & H1 & H2 & H3 & H4 & H5 & H6 & H7).
  rewrite loop_body_returned
    with (st := st) (m := m) (x := x) (y := y) (ax := ax) (ay := ay)
         (t := t) by assumption.
  eexists. reflexivity.
Qed.

(** The residual lines of a run, whatever the length of the multiplier
    column. *)
Lemma run_residual_lines :
  imports_succeed ext = true ->
  0 < k ->
  map Some (residual_lines (fst (run ext sol k viz))) =
  map expected
      (map (Nat.mul k)
           (seq 0 (ceil_div (Nat.min (List.length lam) N) k))).
Proof.
  intros Himp Hk.
  rewrite (run_closed_form ext sol N tx ty name0 lam rest Hwf k viz Himp Hk).
  cbn [fst]. rewrite !residual_lines_app.
  replace (residual_lines
             (if k * ceil_div (Nat.min (List.length lam) N) k <? N
              then [] else [Show])) with (@nil (F * F * F))
    by (now destruct (_ <? _)).
  cbn [residual_lines flat_map app]. rewrite app_nil_r.
  apply residual_lines_passes with (f := fun i => fst (body i)).
  intros i Hin. apply in_map_iff in Hin. destruct Hin as [j [<- Hj]].
  apply in_seq in Hj.
  assert (Hlt : k * j < Nat.min (List.length lam) N)
    by (apply ceil_div_spec; [exact Hk | lia]).
  apply pass_line; lia.
Qed.

End Lines.

(** ** The residual formulas *)

(** C1. With pylab at hand, columns of one length [N] and a stride
    [k > 0] (10 in the script), the residual lines of the run are, sample by
    sample, the formulas of the specification at the indices [0, k, 2k, ...]:
    [F_constraint.x - mass * accelx_i] and
    [-mass * gravity + F_constraint.y - mass * accely_i] with
    [F_constraint = J * mult_i]; gravity enters the second only. *)
Theorem residual_lines_follow_formulas :
  forall (F : Type) (SF : Scalar F) (ext : Externals F)
         (sol : MocoTrajectory F) (N : nat) (tx ty : list F)
         (name0 : string) (lam : list F) (rest : list (string * list F))
         (k : nat) (viz : F),
    well_formed ext sol N tx ty name0 lam rest ->
    List.length lam = N ->
    imports_succeed ext = true ->
    0 < k ->
    let time := getTimeMat sol in
    let mult := map fneg lam in
    let accelx := InterpolatedUnivariateSpline ext time tx time 2 in
    let accely := InterpolatedUnivariateSpline ext time ty time 2 in
    let statesTraj := exportToStatesTrajectory ext sol in
    map Some (residual_lines (fst (run ext sol k viz))) =
    map (fun j =>
           match nth_error time (k * j), nth_error mult (k * j),
                 nth_error accelx (k * j), nth_error accely (k * j),
                 nth_error statesTraj (k * j) with
           | Some t, Some m, Some ax, Some ay, Some st =>
               let J := (calcPq ext st 0 0, calcPq ext st 1 0) in
               let Fc := F_constraint J m in
               Some (t,
                     fsub (fst Fc) (fmul mass ax),
                     fsub (fadd (fmul (fneg mass) (g ext)) (snd Fc))
                          (fmul mass ay))
           | _, _, _, _, _ => None
           end)
        (seq 0 (ceil_div N k)).
Proof.
  intros F SF ext sol N tx ty name0 lam rest k viz Hwf Hlen Himp Hk
         time mult accelx accely statesTraj.
  rewrite (run_residual_lines ext sol N tx ty name0 lam rest Hwf k viz Himp Hk).
  rewrite Hlen, Nat.min_id, map_map.
  apply map_ext. intros j. reflexivity.
Qed.

Lemma parabola_well_formed_21 :
  well_formed (parabola_ext (F := float) true)
    (parabola_solution 21
       [(lambda_name, constant_column 21 (fdec (-3) 0))])
    21 (parabola_tx 21) (parabola_ty 21) lambda_name
    (constant_column 21 (fdec (-3) 0)) [].
Proof. constructor; reflexivity. Qed.

Lemma residual_lines_follow_formulas_witness :
  let ext := parabola_ext (F := float) true in
  let sol := parabola_solution 21
               [(lambda_name, constant_column 21 (fdec (-3) 0))] in
  let time := getTimeMat sol in
  let mult := map fneg (constant_column 21 (fdec (-3) 0)) in
  let accelx :=
    InterpolatedUnivariateSpline ext time (parabola_tx 21) time 2 in
  let accely :=
    InterpolatedUnivariateSpline ext time (parabola_ty 21) time 2 in
  let statesTraj := exportToStatesTrajectory ext sol in
  map Some (residual_lines (fst (run ext sol 10 (fdec 10 (-3))))) =
  map (fun j =>
         match nth_error time (10 * j), nth_error mult (10 * j),
               nth_error accelx (10 * j), nth_error accely (10 * j),
               nth_error statesTraj (10 * j) with
         | Some t, Some m, Some ax, Some ay, Some st =>
             let J := (calcPq ext st 0 0, calcPq ext st 1 0) in
             let Fc := F_constraint J m in
             Some (t,
                   fsub (fst Fc) (fmul mass ax),
                   fsub (fadd (fmul (fneg mass) (g ext)) (snd Fc))
                        (fmul mass ay))
         | _, _, _, _, _ => None
         end)
      (seq 0 (ceil_div 21 10)).
Proof.
  apply (residual_lines_follow_formulas float Binary64
           (parabola_ext true)
           (parabola_solution 21
              [(lambda_name, constant_column 21 (fdec (-3) 0))])
           21 (parabola_tx 21) (parabola_ty 21) lambda_name
           (constant_column 21 (fdec (-3) 0)) [] 10 (fdec 10 (-3))).
  - exact parabola_well_formed_21.
  - reflexivity.
  - reflexivity.
  - lia.
Defined.

(** ** The stride *)

(** C5. With pylab at hand, columns of one length [N] and a stride
    [k > 0] (10 in the script), the run ends normally, prints
    [ceil (N / k)] residual lines and draws as many arrows, and the times of
    the lines are [time[0], time[k], time[2k], ...]. *)
Theorem stride_samples :
  forall (F : Type) (SF : Scalar F) (ext : Externals F)
         (sol : MocoTrajectory F) (N : nat) (tx ty : list F)
         (name0 : string) (lam : list F) (rest : list (string * list F))
         (k : nat) (viz : F),
    well_formed ext sol N tx ty name0 lam rest ->
    List.length lam = N ->
    imports_succeed ext = true ->
    0 < k ->
    let out := run ext sol k viz in
    snd out = Returned tt /\
    List.length (residual_lines (fst out)) = ceil_div N k /\
    List.length (arrows (fst out)) = ceil_div N k /\
    map Some (map line_time (residual_lines (fst out))) =
    map (fun j => nth_error (getTimeMat sol) (k * j)) (seq 0 (ceil_div N k)).
Proof.
  intros F SF ext sol N tx ty name0 lam rest k viz Hwf Hlen Himp Hk out.
  pose proof (run_residual_lines ext sol N tx ty name0 lam rest Hwf k viz
                Himp Hk) as Hlines.
  pose proof (run_closed_form ext sol N tx ty name0 lam rest Hwf k viz
                Himp Hk) as Hrun.
  cbv zeta in Hrun. rewrite Hlen, Nat.min_id in Hlines, Hrun.
  fold out in Hlines, Hrun.
  assert (Hend : (k * ceil_div N k <? N) = false)
    by (apply Nat.ltb_ge; now apply ceil_div_reached).
  rewrite Hend in Hrun.
  repeat split.
  - now rewrite Hrun.
  - apply (f_equal (@List.length _)) in Hlines.
    now rewrite !List.length_map, List.length_seq in Hlines.
  - rewrite Hrun. cbn [fst]. rewrite !arrows_app.
    cbn [arrows flat_map app]. rewrite app_nil_r.
    set (idx := map (Nat.mul k) (seq 0 (ceil_div N k))).
    assert (Harr : forall l, (forall i, In i l -> i < N) ->
              List.length
                (arrows
                   (flat_map
                      (fun i =>
                         fst (loop_body ext viz (getTimeMat sol) tx ty
                                (map fneg lam)
                                (InterpolatedUnivariateSpline ext
                                   (getTimeMat sol) tx (getTimeMat sol) 2)
                                (InterpolatedUnivariateSpline ext
                                   (getTimeMat sol) ty (getTimeMat sol) 2)
                                (exportToStatesTrajectory ext sol) i)) l))
              = List.length l).
    { induction l as [| i l IH]; intros Hl; [reflexivity |].
      cbn [flat_map]. rewrite arrows_app, List.length_app.
      destruct (pass_arrow ext sol N tx ty name0 lam rest Hwf viz i)
        as [a Ha]; [apply Hl; now left | rewrite Hlen; apply Hl; now left |].
      rewrite Ha, IH by (intros i' Hi'; apply Hl; now right).
      reflexivity. }
    rewrite Harr.
    + unfold idx. now rewrite List.length_map, List.length_seq.
    + intros i Hin. apply in_map_iff in Hin. destruct Hin as [j [<- Hj]].
      apply in_seq in Hj. apply ceil_div_spec; [exact Hk | lia].
  - apply (f_equal (map (option_map line_time))) in Hlines.
    rewrite !map_map in Hlines. cbn [option_map] in Hlines.
    rewrite map_map, Hlines.
    apply map_ext_in. intros j Hj. apply in_seq in Hj.
    assert (Hlt : k * j < N) by (apply ceil_div_spec; [exact Hk | lia]).
    destruct (pass_returns ext sol N tx ty name0 lam rest Hwf (k * j))
      as (st & m & x & y & ax & ay & t & H1 & H2 & H3 & H4 & H5 & H6 & H7);
      [lia | lia |].
    unfold expected_line. rewrite H1, H2, H5, H6, H7. reflexivity.
Qed.

Lemma stride_samples_witness :
  let out := run (parabola_ext (F := float) true)
               (parabola_solution 21
                  [(lambda_name, constant_column 21 (fdec (-3) 0))])
               10 (fdec 10 (-3)) in
  snd out = Returned tt /\
  List.length (residual_lines (fst out)) = ceil_div 21 10 /\
  List.length (arrows (fst out)) = ceil_div 21 10 /\
  map Some (map line_time (residual_lines (fst out))) =
  map (fun j =>
         nth_error
           (getTimeMat
              (parabola_solution 21
                 [(lambda_name, constant_column 21 (fdec (-3) 0))]))
           (10 * j))
      (seq 0 (ceil_div 21 10)).
Proof.
  apply (stride_samples float Binary64 (parabola_ext true)
           (parabola_solution 21
              [(lambda_name, constant_column 21 (fdec (-3) 0))])
           21 (parabola_tx 21) (parabola_ty 21) lambda_name
           (constant_column 21 (fdec (-3) 0)) [] 10 (fdec 10 (-3))).
  - exact parabola_well_formed_21.
  - reflexivity.
  - reflexivity.
  - lia.
Defined.

(** ** Without pylab *)

Lemma run_without_imports :
  forall (F : Type) (SF : Scalar F) (ext : Externals F)
         (sol : MocoTrajectory F) (k : nat) (viz : F),
    imports_succeed ext = false ->
    run ext sol k viz = ([PrintSkippingPlotting], Returned tt).
Proof.
  intros F SF ext sol k viz Himp. unfold run. rewrite Himp. reflexivity.
Qed.

(** ** The scale of the arrows *)

Lemma status_unit : forall o : outcome unit, status o = o.
Proof. now intros [[] | e |]. Qed.

Section ScaleIsolation.
Context {F : Type} {SF : Scalar F}.
Variable ext : Externals F.
Variable k : nat.
Variables viz1 viz2 : F.

Lemma same_lines_seq :
  forall (A A' B B' : Type) (c1 : M (event F) A) (c2 : M (event F) A')
         (r1 : M (event F) B) (r2 : M (event F) B'),
    same_lines c1 c2 -> same_lines r1 r2 ->
    same_lines (c1 ;;; r1) (c2 ;;; r2).
Proof.
  intros A A' B B' [o1 s1] [o2 s2] r1 r2 [Hl Hs] [Hl' Hs'].
  unfold same_lines, bind, prepend in *. cbn [fst snd] in *.
  destruct s1, s2; cbn [status] in Hs; try discriminate;
    cbn [fst snd status]; rewrite ?residual_lines_app; split;
    try assumption; try reflexivity.
  now rewrite Hl, Hl'.
Qed.

Lemma same_lines_prepend :
  forall (A B : Type) evs1 evs2 (c1 : M (event F) A) (c2 : M (event F) B),
    residual_lines evs1 = residual_lines evs2 ->
    same_lines c1 c2 ->
    same_lines (prepend evs1 c1) (prepend evs2 c2).
Proof.
  intros A B evs1 evs2 c1 c2 He [Hl Hs]. unfold same_lines, prepend.
  cbn [fst snd]. rewrite !residual_lines_app. split; congruence.
Qed.

Lemma same_lines_refl :
  forall (A : Type) (c : M (event F) A), same_lines c c.
Proof. now split. Qed.

(** Both computations stop at the same [raise]. *)
Ltac both_raise := rewrite !bind_raise; apply same_lines_refl.

Lemma loop_body_same_lines :
  forall time tx ty multiplier accelx accely
         (statesTraj : list (State ext)) i,
    same_lines
      (loop_body ext viz1 time tx ty multiplier accelx accely statesTraj i)
      (loop_body ext viz2 time tx ty multiplier accelx accely statesTraj i).
Proof.
  intros time tx ty multiplier accelx accely statesTraj i.
  unfold loop_body, getitem.
  destruct (nth_error statesTraj i) as [st |]; [| both_raise].
  rewrite !bind_ret_l.
  destruct (nth_error multiplier i) as [m |]; [| both_raise].
  rewrite !bind_ret_l.
  destruct (nth_error tx i) as [x |]; [| both_raise].
  rewrite !bind_ret_l.
  destruct (nth_error ty i) as [y |]; [| both_raise].
  rewrite !bind_ret_l. cbn [map nth_error]. rewrite !bind_ret_l, !bind_emit.
  apply same_lines_prepend; [reflexivity |].
  destruct (nth_error accelx i) as [ax |]; [| both_raise].
  rewrite !bind_ret_l.
  destruct (nth_error accely i) as [ay |]; [| both_raise].
  rewrite !bind_ret_l.
  destruct (nth_error time i) as [t |]; [| both_raise].
  rewrite !bind_ret_l, !bind_emit.
  apply same_lines_prepend; [reflexivity |]. now split.
Qed.

Lemma while_loop_same_lines :
  forall time tx ty multiplier accelx accely
         (statesTraj : list (State ext)) fuel i,
    same_lines
      (while_loop ext k viz1 time tx ty multiplier accelx accely statesTraj
                  fuel i)
      (while_loop ext k viz2 time tx ty multiplier accelx accely statesTraj
                  fuel i).
Proof.
  intros time tx ty multiplier accelx accely statesTraj fuel.
  induction fuel as [| fuel IH]; intros i; cbn [while_loop];
    destruct (i <? List.length statesTraj).
  - split; reflexivity.
  - split; reflexivity.
  - apply same_lines_seq; [apply loop_body_same_lines | apply IH].
  - split; reflexivity.
Qed.

Lemma analysis_same_lines :
  forall sol, same_lines (analysis ext sol k viz1) (analysis ext sol k viz2).
Proof.
  intros sol. unfold analysis, getStateMat, getMultiplierMat, getitem.
  rewrite !bind_emit. apply same_lines_prepend; [reflexivity |].
  destruct (column _ (state_columns sol)) as [tx |];
    [| both_raise].
  rewrite !bind_ret_l.
  destruct (column _ (state_columns sol)) as [ty |];
    [| both_raise].
  rewrite !bind_ret_l.
  destruct (nth_error (getMultiplierNames sol) 0) as [name0 |];
    [| both_raise].
  rewrite !bind_ret_l.
  destruct (column name0 (multiplier_columns sol)) as [lam |];
    [| both_raise].
  rewrite !bind_ret_l, !bind_emit.
  do 3 (apply same_lines_prepend; [reflexivity |]).
  apply same_lines_seq; [apply while_loop_same_lines | apply same_lines_refl].
Qed.

End ScaleIsolation.

(** C6. Two runs on the same inputs that differ in the scale of the arrows
    alone print the same residual lines, sample by sample, and end the same
    way: the scale never reaches [residualx] or [residualy]. *)
Theorem viz_scale_isolation :
  forall (F : Type) (SF : Scalar F) (ext : Externals F)
         (sol : MocoTrajectory F) (k : nat) (viz1 viz2 : F),
    residual_lines (fst (run ext sol k viz1)) =
    residual_lines (fst (run ext sol k viz2)) /\
    snd (run ext sol k viz1) = snd (run ext sol k viz2).
Proof.
  intros F SF ext sol k viz1 viz2.
  destruct (imports_succeed ext) eqn:Himp.
  - unfold run. rewrite Himp, !bind_ret_l.
    destruct (analysis_same_lines ext k viz1 viz2 sol) as [Hl Hs].
    rewrite !status_unit in Hs. now split.
  - rewrite !run_without_imports by exact Himp. now split.
Qed.

(** ** Further multiplier columns *)

Section FirstMultiplier.
Context {F : Type} {SF : Scalar F}.

Lemma same_but_count_refl :
  forall (A : Type) (c : M (event F) A), same_but_count c c.
Proof. now split. Qed.

Lemma same_but_count_prepend :
  forall (A : Type) evs1 evs2 (c1 c2 : M (event F) A),
    without_count evs1 = without_count evs2 ->
    same_but_count c1 c2 ->
    same_but_count (prepend evs1 c1) (prepend evs2 c2).
Proof.
  intros A evs1 evs2 c1 c2 He [Hl Hs]. unfold same_but_count, prepend.
  cbn [fst snd]. unfold without_count in *. rewrite !filter_app.
  split; congruence.
Qed.

End FirstMultiplier.

(** C8. Two solutions with the same time and state columns and the same
    first multiplier column, whatever columns follow it, give the same run
    up to the count printed in line 102: the same figure, curve, arrows and
    residual lines in the same order, and the same end.  (The states
    trajectory is exported from the states and is the same for both.) *)
Theorem only_first_multiplier_used :
  forall (F : Type) (SF : Scalar F) (ext : Externals F)
         (time : list F) (states : list (string * list F))
         (name0 : string) (lam : list F)
         (rest1 rest2 : list (string * list F)) (k : nat) (viz : F),
    let sol1 := {| getTimeMat := time; state_columns := states;
                   multiplier_columns := (name0, lam) :: rest1 |} in
    let sol2 := {| getTimeMat := time; state_columns := states;
                   multiplier_columns := (name0, lam) :: rest2 |} in
    exportToStatesTrajectory ext sol1 = exportToStatesTrajectory ext sol2 ->
    without_count (fst (run ext sol1 k viz)) =
    without_count (fst (run ext sol2 k viz)) /\
    snd (run ext sol1 k viz) = snd (run ext sol2 k viz).
Proof.
  intros F SF ext time states name0 lam rest1 rest2 k viz sol1 sol2 Hexp.
  change (same_but_count (run ext sol1 k viz) (run ext sol2 k viz)).
  destruct (imports_succeed ext) eqn:Himp.
  - unfold run. rewrite Himp, !bind_ret_l.
    unfold analysis, getStateMat, getMultiplierMat, getMultiplierNames.
    rewrite <- Hexp. unfold sol1, sol2.
    cbn [getTimeMat state_columns multiplier_columns map fst getitem
         nth_error].
    rewrite !bind_emit. apply same_but_count_prepend; [reflexivity |].
    destruct (column _ states) as [tx |];
      [| rewrite !bind_raise; apply same_but_count_refl].
    rewrite !bind_ret_l.
    destruct (column _ states) as [ty |];
      [| rewrite !bind_raise; apply same_but_count_refl].
    rewrite !bind_ret_l, !column_head, !bind_ret_l, !bind_emit.
    apply same_but_count_prepend; [reflexivity |].
    apply same_but_count_refl.
  - rewrite !run_without_imports by exact Himp. apply same_but_count_refl.
Qed.

Lemma only_first_multiplier_used_witness :
  let time := getTimeMat (parabola_solution (F := float) 21 []) in
  let states := state_columns (parabola_solution (F := float) 21 []) in
  let lam := constant_column 21 (fdec (-3) 0) in
  let extra := [("/constraintset/cid_1/lambda_0"%string,
                 constant_column 21 (fdec 7 0))] in
  let sol1 := {| getTimeMat := time; state_columns := states;
                 multiplier_columns := (lambda_name, lam) :: [] |} in
  let sol2 := {| getTimeMat := time; state_columns := states;
                 multiplier_columns := (lambda_name, lam) :: extra |} in
  without_count (fst (run (parabola_ext true) sol1 10 (fdec 10 (-3)))) =
  without_count (fst (run (parabola_ext true) sol2 10 (fdec 10 (-3)))) /\
  snd (run (parabola_ext true) sol1 10 (fdec 10 (-3))) =
  snd (run (parabola_ext true) sol2 10 (fdec 10 (-3))).
Proof.
  apply (only_first_multiplier_used float Binary64 (parabola_ext true)).
  reflexivity.
Defined.

(** ** A multiplier column that is too short *)


(** ** Skipping the analysis *)

(** C10. When pylab or scipy cannot be imported the script prints
    'Skipping plotting' and does nothing else: no figure, no curve, no
    arrow, no residual line, and it ends normally. *)
Theorem skipping_plotting_only :
  forall (F : Type) (SF : Scalar F) (ext : Externals F)
         (solution : MocoTrajectory F),
    imports_succeed ext = false ->
    script ext solution = ([PrintSkippingPlotting], Returned tt) /\
    arrows (fst (script ext solution)) = [] /\
    residual_lines (fst (script ext solution)) = [].
Proof.
  intros F SF ext solution Himp. unfold script.
  rewrite run_without_imports by exact Himp.
  repeat split.
Qed.

Lemma skipping_plotting_only_witness :
  let sol := parabola_solution (F := float) 21
               [(lambda_name, constant_column 21 (fdec (-3) 0))] in
  script (parabola_ext false) sol = ([PrintSkippingPlotting], Returned tt) /\
  arrows (fst (script (parabola_ext false) sol)) = [] /\
  residual_lines (fst (script (parabola_ext false) sol)) = [].
Proof.
  apply (skipping_plotting_only float Binary64 (parabola_ext false)).
  reflexivity.
Defined.

(** C3. The concrete scenario holds in binary64, as the interpreter
    computes it, and in exact arithmetic. *)
Theorem concrete_scenario_holds :
  concrete_scenario float Binary64 /\ concrete_scenario Qc Exact.
Proof.
  split.
  - intros imports viz time tx ty multiplier accelx accely statesTraj i
           ty_i x y t Hst Hm Hx Hy Hax Hay Ht.
    do 2 eexists.
    rewrite (loop_body_returned (parabola_ext imports) viz time tx ty
               multiplier accelx accely statesTraj i _ _ _ _ _ _ _
               Hst Hm Hx Hy Hax Hay Ht).
    repeat split.
  - intros imports viz time tx ty multiplier accelx accely statesTraj i
           ty_i x y t Hst Hm Hx Hy Hax Hay Ht.
    assert (H6 : fmul (fmul (fdec 2 0) (fdec 1 0)) (fdec 3 0)
                 = fdec (F := Qc) 6 0)
      by (apply Qc_is_canon; reflexivity).
    assert (H3 : fmul (fneg (fdec 1 0)) (fdec 3 0) = fdec (F := Qc) (-3) 0)
      by (apply Qc_is_canon; reflexivity).
    assert (H2 : fmul (fdec 2 0) (fdec 1 0) = fdec (F := Qc) 2 0)
      by (apply Qc_is_canon; reflexivity).
    assert (H1 : fneg (fdec 1 0) = fdec (F := Qc) (-1) 0)
      by (apply Qc_is_canon; reflexivity).
    assert (H4 : fsub (fdec 6 0) (fmul mass (fdec 2 0)) = fdec (F := Qc) 4 0)
      by (apply Qc_is_canon; reflexivity).
    assert (H248 : fsub (fadd (fmul (fneg mass)
                                 (fabs (fneg (fdec 98 (-1)))))
                              (fdec (-3) 0))
                        (fmul mass (fdec 12 0))
                   = fdec (F := Qc) (-248) (-1))
      by (apply Qc_is_canon; reflexivity).
    do 2 eexists.
    rewrite (loop_body_returned (parabola_ext imports) viz time tx ty
               multiplier accelx accely statesTraj i _ _ _ _ _ _ _
               Hst Hm Hx Hy Hax Hay Ht).
    cbn [jac constraintForces residualx residualy residual_lines flat_map
         app calcPq parabola_ext fst snd].
    unfold g. cbn [get_gravity parabola_ext Vec3_getitem vec_y].
    rewrite H6, H3, H2, H1, H4, H248.
    repeat split.
Qed.

Lemma concrete_scenario_holds_witness :
  (exists evs l,
     loop_body (F := float) (parabola_ext true) (fdec 10 (-3))
               [fdec 1 0] [fdec 1 0] [fdec 1 0] [fdec 3 0]
               [fdec 2 0] [fdec 12 0] [(fdec 1 0, fdec 1 0)] 0
     = (evs, Returned l) /\
     jac l = [fdec 2 0; fdec (-1) 0] /\
     constraintForces l = [fdec 6 0; fdec (-3) 0] /\
     residualx l = fdec 4 0 /\
     residualy l = fdec (-248) (-1) /\
     residual_lines evs = [(fdec 1 0, fdec 4 0, fdec (-248) (-1))]) /\
  (exists evs l,
     loop_body (F := Qc) (parabola_ext true) (fdec 10 (-3))
               [fdec 1 0] [fdec 1 0] [fdec 1 0] [fdec 3 0]
               [fdec 2 0] [fdec 12 0] [(fdec 1 0, fdec 1 0)] 0
     = (evs, Returned l) /\
     jac l = [fdec 2 0; fdec (-1) 0] /\
     constraintForces l = [fdec 6 0; fdec (-3) 0] /\
     residualx l = fdec 4 0 /\
     residualy l = fdec (-248) (-1) /\
     residual_lines evs = [(fdec 1 0, fdec 4 0, fdec (-248) (-1))]).
Proof.
  split.
  - apply (proj1 concrete_scenario_holds true (fdec 10 (-3))
             [fdec 1 0] [fdec 1 0] [fdec 1 0] [fdec 3 0]
             [fdec 2 0] [fdec 12 0] [(fdec 1 0, fdec 1 0)] 0
             (fdec 1 0) (fdec 1 0) (fdec 1 0) (fdec 1 0));
      reflexivity.
  - apply (proj2 concrete_scenario_holds true (fdec 10 (-3))
             [fdec 1 0] [fdec 1 0] [fdec 1 0] [fdec 3 0]
             [fdec 2 0] [fdec 12 0] [(fdec 1 0, fdec 1 0)] 0
             (fdec 1 0) (fdec 1 0) (fdec 1 0) (fdec 1 0));
      reflexivity.
Defined.

(** * Further properties of the analysis *)

(** ** Any pass, any loop *)

Section AnyInputs.
Context {F : Type} {SF : Scalar F}.
Variable ext : Externals F.
Variable k : nat.
Variable viz : F.
Variables time tx ty multiplier accelx accely : list F.
Variable statesTraj : list (State ext).

Local Abbreviation body :=
  (loop_body ext viz time tx ty multiplier accelx accely statesTraj).
Local Abbreviation loop :=
  (while_loop ext k viz time tx ty multiplier accelx accely statesTraj).

(** A pass shows its arrow and its line and returns, or raises
    [IndexError] before the arrow, or raises it after the arrow. *)
Lemma loop_body_cases :
  forall i,
    (exists a l locals, body i = (sample_events a l, Returned locals)) \/
    body i = ([], Raised IndexError) \/
    (exists x y dx dy, body i = ([Arrow x y dx dy], Raised IndexError)).
Proof.
  intros i. unfold loop_body, getitem.
  destruct (nth_error statesTraj i) as [st |];
    [| right; left; now rewrite !bind_raise].
  rewrite !bind_ret_l.
  destruct (nth_error multiplier i) as [m |];
    [| right; left; now rewrite !bind_raise].
  rewrite !bind_ret_l.
  destruct (nth_error tx i) as [x |];
    [| right; left; now rewrite !bind_raise].
  rewrite !bind_ret_l.
  destruct (nth_error ty i) as [y |];
    [| right; left; now rewrite !bind_raise].
  rewrite !bind_ret_l. cbn [map nth_error]. rewrite !bind_ret_l, !bind_emit.
  destruct (nth_error accelx i) as [ax |];
    [| right; right; rewrite !bind_raise; do 4 eexists; reflexivity].
  rewrite !bind_ret_l.
  destruct (nth_error accely i) as [ay |];
    [| right; right; rewrite !bind_raise; do 4 eexists; reflexivity].
  rewrite !bind_ret_l.
  destruct (nth_error time i) as [t |];
    [| right; right; rewrite !bind_raise; do 4 eexists; reflexivity].
  rewrite !bind_ret_l, !bind_emit.
  left.
  exists (x, y, fmul viz (fmul (calcPq ext st 0 0) m),
          fmul viz (fmul (calcPq ext st 1 0) m)).
  exists (t, fsub (fmul (calcPq ext st 0 0) m) (fmul mass ax),
          fsub (fadd (fmul (fneg mass) (g ext)) (fmul (calcPq ext st 1 0) m))
               (fmul mass ay)).
  eexists. reflexivity.
Qed.

(** Whatever the columns hold, the loop's output is a sequence of whole
    passes, ended in one of the four ways of [loop_trace]. *)
Lemma while_loop_trace :
  forall fuel i, loop_trace (fst (loop fuel i)) (snd (loop fuel i)).
Proof.
  induction fuel as [| fuel IH]; intros i; cbn [while_loop];
    destruct (i <? List.length statesTraj).
  - apply trace_spent.
  - apply trace_done.
  - destruct (loop_body_cases i)
      as [(a & l & locals & Hb) | [Hb | (x & y & dx & dy & Hb)]];
      rewrite Hb.
    + rewrite bind_returned with (a := locals) by reflexivity.
      cbn [fst snd]. apply trace_pass, IH.
    + apply trace_raise.
    + apply trace_raise_after_arrow.
  - apply trace_done.
Qed.

(** With a positive stride, fuel for the indices still ahead is enough. *)
Lemma while_loop_enough_fuel :
  0 < k ->
  forall fuel i,
    List.length statesTraj - i <= fuel ->
    snd (loop fuel i) <> Diverged.
Proof.
  intros Hk. induction fuel as [| fuel IH]; intros i Hfuel;
    cbn [while_loop]; destruct (i <? List.length statesTraj) eqn:E;
    try discriminate.
  - apply Nat.ltb_lt in E. lia.
  - apply Nat.ltb_lt in E.
    destruct (loop_body_cases i)
      as [(a & l & locals & Hb) | [Hb | (x & y & dx & dy & Hb)]];
      rewrite Hb; try discriminate.
    rewrite bind_returned with (a := locals) by reflexivity.
    cbn [snd]. apply IH. lia.
Qed.

End AnyInputs.

Lemma loop_trace_samples :
  forall (F : Type) (evs : list (event F)) (o : outcome unit),
    loop_trace evs o -> forallb is_sample evs = true.
Proof.
  intros F evs o H. induction H as [| | | x y dx dy | a l evs o _ IH];
    try reflexivity.
  destruct a as [[[x y] dx] dy], l as [[t rx] ry]. exact IH.
Qed.

Lemma loop_trace_counts :
  forall (F : Type) (evs : list (event F)) (o : outcome unit),
    loop_trace evs o ->
    List.length (arrows evs) = List.length (residual_lines evs) \/
    (List.length (arrows evs) = S (List.length (residual_lines evs)) /\
     o = Raised IndexError).
Proof.
  intros F evs o H. induction H as [| | | x y dx dy | a l evs o _ IH].
  - now left.
  - now left.
  - now left.
  - right. now split.
  - destruct a as [[[x y] dx] dy], l as [[t rx] ry].
    cbn [sample_events app arrows residual_lines flat_map List.length].
    fold (arrows evs). fold (residual_lines evs).
    destruct IH as [IH | [IH Ho]]; [left | right; split]; lia || assumption.
Qed.

(** ** Any run *)

(** The three ways a run can go: without pylab; with pylab and a column
    that is not found, which leaves the empty figure; or through lines
    93-118 into the loop, and on to [pl.show()] when the loop returns. *)
Lemma run_cases :
  forall (F : Type) (SF : Scalar F) (ext : Externals F)
         (sol : MocoTrajectory F) (k : nat) (viz : F),
    (imports_succeed ext = false /\
     run ext sol k viz = ([PrintSkippingPlotting], Returned tt)) \/
    (imports_succeed ext = true /\
     (column "/jointset/tx/tx/value" (state_columns sol) = None \/
      column "/jointset/ty/ty/value" (state_columns sol) = None \/
      multiplier_columns sol = []) /\
     exists e, run ext sol k viz = ([Figure], Raised e)) \/
    (imports_succeed ext = true /\
     exists tx ty name0 lam rest evs o,
       column "/jointset/tx/tx/value" (state_columns sol) = Some tx /\
       column "/jointset/ty/ty/value" (state_columns sol) = Some ty /\
       multiplier_columns sol = (name0, lam) :: rest /\
       while_loop ext k viz (getTimeMat sol) tx ty (map fneg lam)
         (InterpolatedUnivariateSpline ext (getTimeMat sol) tx
            (getTimeMat sol) 2)
         (InterpolatedUnivariateSpline ext (getTimeMat sol) ty
            (getTimeMat sol) 2)
         (exportToStatesTrajectory ext sol)
         (List.length (exportToStatesTrajectory ext sol)) 0 = (evs, o) /\
       loop_trace evs o /\
       (0 < k -> o <> Diverged) /\
       run ext sol k viz =
       ([Figure; PrintNumberOfMultipliers (S (List.length rest));
         SetAspectEqual; Plot tx ty]
          ++ evs ++ match o with Returned _ => [Show] | _ => [] end,
        o)).
Proof.
  intros F SF ext sol k viz.
  destruct (imports_succeed ext) eqn:Himp.
  2: { left. split; [reflexivity |]. now apply run_without_imports. }
  right. unfold run. rewrite Himp, bind_ret_l.
  unfold analysis, getStateMat, getMultiplierMat, getMultiplierNames.
  rewrite !bind_emit.
  destruct (column "/jointset/tx/tx/value" (state_columns sol))
    as [tx |] eqn:Htx.
  2: { left. split; [reflexivity |]. split; [now left |].
       exists RuntimeError. now rewrite bind_raise. }
  rewrite bind_ret_l.
  destruct (column "/jointset/ty/ty/value" (state_columns sol))
    as [ty |] eqn:Hty.
  2: { left. split; [reflexivity |]. split; [now right; left |].
       exists RuntimeError. now rewrite bind_raise. }
  rewrite bind_ret_l.
  destruct (multiplier_columns sol) as [| [name0 lam] rest] eqn:Hm.
  { left. split; [reflexivity |]. split; [now right; right |].
    exists IndexError. cbn [map getitem nth_error].
    now rewrite bind_raise. }
  right. split; [reflexivity |].
  cbn [map fst getitem nth_error].
  rewrite bind_ret_l, column_head, bind_ret_l, !bind_emit.
  cbn [List.length]. rewrite List.length_map.
  pose proof (while_loop_trace ext k viz (getTimeMat sol) tx ty
                (map fneg lam)
                (InterpolatedUnivariateSpline ext (getTimeMat sol) tx
                   (getTimeMat sol) 2)
                (InterpolatedUnivariateSpline ext (getTimeMat sol) ty
                   (getTimeMat sol) 2)
                (exportToStatesTrajectory ext sol)
                (List.length (exportToStatesTrajectory ext sol)) 0)
    as Htrace.
  pose proof (fun Hk =>
                while_loop_enough_fuel ext k viz (getTimeMat sol) tx ty
                  (map fneg lam)
                  (InterpolatedUnivariateSpline ext (getTimeMat sol) tx
                     (getTimeMat sol) 2)
                  (InterpolatedUnivariateSpline ext (getTimeMat sol) ty
                     (getTimeMat sol) 2)
                  (exportToStatesTrajectory ext sol) Hk
                  (List.length (exportToStatesTrajectory ext sol)) 0
                  ltac:(lia))
    as Hfuel.
  destruct (while_loop ext k viz (getTimeMat sol) tx ty (map fneg lam)
              (InterpolatedUnivariateSpline ext (getTimeMat sol) tx
                 (getTimeMat sol) 2)
              (InterpolatedUnivariateSpline ext (getTimeMat sol) ty
                 (getTimeMat sol) 2)
              (exportToStatesTrajectory ext sol)
              (List.length (exportToStatesTrajectory ext sol)) 0)
    as [evs o] eqn:Hw.
  exists tx, ty, name0, lam, rest, evs, o.
  repeat (split; [reflexivity |]).
  split; [exact Hw |]. split; [exact Htrace |]. split; [exact Hfuel |].
  unfold bind, prepend. cbn [fst snd emit].
  destruct o as [[] | e |]; cbn [fst snd app]; rewrite ?app_nil_r;
    reflexivity.
Qed.

(** X1. With a positive stride (10 in the script) the run ends, by
    returning or by raising, whatever the solution and the collaborators
    hand back: [itime] passes the end of the states trajectory within as
    many passes as it has states. *)
Theorem run_terminates :
  forall (F : Type) (SF : Scalar F) (ext : Externals F)
         (sol : MocoTrajectory F) (k : nat) (viz : F),
    0 < k ->
    snd (run ext sol k viz) <> Diverged.
Proof.
  intros F SF ext sol k viz Hk.
  destruct (run_cases F SF ext sol k viz)
    as [[_ Hrun] | [(_ & _ & e & Hrun) | (_ & Hrun)]].
  - now rewrite Hrun.
  - now rewrite Hrun.
  - destruct Hrun as (tx & ty & name0 & lam & rest & evs & o & _ & _ & _
                      & _ & _ & Hfuel & Hrun).
    rewrite Hrun. cbn [snd]. now apply Hfuel.
Qed.

Lemma run_terminates_witness :
  snd (run (parabola_ext (F := float) true)
         (parabola_solution 21
            [(lambda_name, constant_column 5 (fdec (-3) 0))])
         10 (fdec 10 (-3))) <> Diverged.
Proof.
  apply (run_terminates float Binary64). lia.
Defined.

(** X2. A solution without multiplier columns stops the script at line
    101, with the empty figure of lines 93-96 and nothing else: no count,
    no curve, no arrow, no residual line, no [pl.show()].  When both
    coordinate columns are found the exception is the [IndexError] of
    [getMultiplierNames()[0]]. *)
Theorem no_multiplier_column :
  forall (F : Type) (SF : Scalar F) (ext : Externals F)
         (sol : MocoTrajectory F) (k : nat) (viz : F),
    imports_succeed ext = true ->
    multiplier_columns sol = [] ->
    fst (run ext sol k viz) = [Figure] /\
    (exists e, snd (run ext sol k viz) = Raised e) /\
    (forall tx ty,
        column "/jointset/tx/tx/value" (state_columns sol) = Some tx ->
        column "/jointset/ty/ty/value" (state_columns sol) = Some ty ->
        snd (run ext sol k viz) = Raised IndexError).
Proof.
  intros F SF ext sol k viz Himp Hm.
  destruct (run_cases F SF ext sol k viz)
    as [[Hno _] | [(_ & _ & e & Hrun) | (_ & Hrun)]].
  - congruence.
  - split; [now rewrite Hrun |]. split; [exists e; now rewrite Hrun |].
    intros tx ty Htx Hty.
    unfold run. rewrite Himp, bind_ret_l.
    unfold analysis, getStateMat, getMultiplierNames.
    rewrite Htx, Hty, Hm, bind_emit, !bind_ret_l.
    cbn [map getitem nth_error]. now rewrite bind_raise.
  - destruct Hrun as (tx & ty & name0 & lam & rest & evs & o & _ & _ & Hm'
                      & _).
    congruence.
Qed.

Lemma no_multiplier_column_witness :
  let out := run (parabola_ext (F := float) true)
               (parabola_solution 21 []) 10 (fdec 10 (-3)) in
  fst out = [Figure] /\
  (exists e, snd out = Raised e) /\
  (forall tx ty,
      column "/jointset/tx/tx/value"
             (state_columns (parabola_solution (F := float) 21 []))
      = Some tx ->
      column "/jointset/ty/ty/value"
             (state_columns (parabola_solution (F := float) 21 []))
      = Some ty ->
      snd out = Raised IndexError).
Proof.
  apply (no_multiplier_column float Binary64 (parabola_ext true)
           (parabola_solution 21 []) 10 (fdec 10 (-3)));
    reflexivity.
Defined.

(** X3. Whatever the run does, the line 'Number of multipliers: n' is
    printed at most once, and the [n] it prints is the number of multiplier
    columns of the solution. *)
Theorem multiplier_count_line :
  forall (F : Type) (SF : Scalar F) (ext : Externals F)
         (sol : MocoTrajectory F) (k : nat) (viz : F),
    List.length (filter is_count (fst (run ext sol k viz))) <= 1 /\
    forall n,
      In (PrintNumberOfMultipliers n) (fst (run ext sol k viz)) ->
      n = List.length (multiplier_columns sol).
Proof.
  intros F SF ext sol k viz.
  destruct (run_cases F SF ext sol k viz)
    as [[_ Hrun] | [(_ & _ & e & Hrun) | (_ & Hrun)]].
  - rewrite Hrun. cbn. split; [lia |]. intros n [H | []]. discriminate.
  - rewrite Hrun. cbn. split; [lia |]. intros n [H | []]. discriminate.
  - destruct Hrun as (tx & ty & name0 & lam & rest & evs & o & _ & _ & Hm
                      & _ & Htrace & _ & Hrun).
    apply loop_trace_samples in Htrace.
    assert (Hnone : forall ev, In ev evs -> is_count ev = false).
    { intros ev Hin.
      pose proof (proj1 (forallb_forall _ _) Htrace ev Hin) as Hs.
      now destruct ev. }
    assert (Hfilter : filter is_count evs = []).
    { clear - Hnone. induction evs as [| ev evs IH]; [reflexivity |].
      cbn [filter]. rewrite (Hnone ev (or_introl eq_refl)).
      apply IH. intros ev' Hin. apply Hnone. now right. }
    rewrite Hrun, Hm. cbn [fst List.length]. split.
    + cbn [app filter is_count]. rewrite filter_app, Hfilter.
      destruct o as [[] | e |]; cbn; lia.
    + intros n Hin. cbn [app] in Hin.
      destruct Hin as [H | [H | [H | [H | Hin]]]]; try discriminate.
      * now injection H as <-.
      * apply in_app_or in Hin. destruct Hin as [Hin | Hin].
        -- apply Hnone in Hin. discriminate.
        -- destruct o as [[] | e |]; cbn in Hin;
             try contradiction. destruct Hin as [H | []]. discriminate.
Qed.

(** X4. [pl.show()] is reached exactly when pylab was imported and the run
    returns: a run that raises never shows the figure, and a run that
    returns with pylab shows it. *)
Theorem show_iff_returned :
  forall (F : Type) (SF : Scalar F) (ext : Externals F)
         (sol : MocoTrajectory F) (k : nat) (viz : F),
    In Show (fst (run ext sol k viz)) <->
    imports_succeed ext = true /\ snd (run ext sol k viz) = Returned tt.
Proof.
  intros F SF ext sol k viz.
  destruct (run_cases F SF ext sol k viz)
    as [[Himp Hrun] | [(Himp & _ & e & Hrun) | (Himp & Hrun)]].
  - rewrite Hrun, Himp. cbn. split.
    + intros [H | []]. discriminate.
    + intros [H _]. discriminate.
  - rewrite Hrun. cbn. split.
    + intros [H | []]. discriminate.
    + intros [_ H]. discriminate.
  - destruct Hrun as (tx & ty & name0 & lam & rest & evs & o & _ & _ & _
                      & _ & Htrace & _ & Hrun).
    apply loop_trace_samples in Htrace.
    rewrite Hrun. cbn [fst snd]. split.
    + intros Hin. split; [exact Himp |].
      cbn [app] in Hin.
      destruct Hin as [H | [H | [H | [H | Hin]]]]; try discriminate.
      apply in_app_or in Hin. destruct Hin as [Hin | Hin].
      * pose proof (proj1 (forallb_forall _ _) Htrace _ Hin) as Hs.
        discriminate.
      * destruct o as [[] | e |]; [reflexivity | contradiction
                                  | contradiction].
    + intros [_ Ho]. subst o. apply in_or_app. right.
      apply in_or_app. right. now left.
Qed.

(** ** Arrows and order of a complete run *)

Lemma arrows_sample_events :
  forall (F : Type) (a : F * F * F * F) (l : F * F * F) evs,
    arrows (sample_events a l ++ evs) = a :: arrows evs /\
    residual_lines (sample_events a l ++ evs) = l :: residual_lines evs.
Proof.
  intros F [[[x y] dx] dy] [[t rx] ry] evs. now split.
Qed.

(** Passes that show an arrow and a line each give an output that its
    arrows and its lines, taken in pairs, spell out again. *)
Lemma passes_interleave :
  forall (F : Type) (f : nat -> list (event F)) (l : list nat),
    (forall i, In i l -> exists a ln, f i = sample_events a ln) ->
    flat_map f l =
    flat_map (fun p => sample_events (fst p) (snd p))
             (combine (arrows (flat_map f l))
                      (residual_lines (flat_map f l))).
Proof.
  intros F f l. induction l as [| i l IH]; intros H; [reflexivity |].
  destruct (H i (or_introl eq_refl)) as (a & ln & Hf).
  cbn [flat_map]. rewrite Hf.
  destruct (arrows_sample_events F a ln (flat_map f l)) as [-> ->].
  cbn [combine flat_map fst snd]. f_equal.
  apply IH. intros i' Hi'. apply H. now right.
Qed.

(** X6. With pylab at hand, columns of one length [N] and a stride
    [k > 0], the arrows of the run are, sample by sample, drawn from
    [(tx[i], ty[i])] with the components
    [forceVizScale * (J * (-lambda_reported[i]))], at [i = 0, k, 2k, ...]. *)
Theorem arrows_follow_forces :
  forall (F : Type) (SF : Scalar F) (ext : Externals F)
         (sol : MocoTrajectory F) (N : nat) (tx ty : list F)
         (name0 : string) (lam : list F) (rest : list (string * list F))
         (k : nat) (viz : F),
    well_formed ext sol N tx ty name0 lam rest ->
    List.length lam = N ->
    imports_succeed ext = true ->
    0 < k ->
    map Some (arrows (fst (run ext sol k viz))) =
    map (fun j =>
           match nth_error tx (k * j), nth_error ty (k * j),
                 nth_error lam (k * j),
                 nth_error (exportToStatesTrajectory ext sol) (k * j) with
           | Some x, Some y, Some lambda_reported, Some st =>
               Some (x, y,
                     fmul viz (fmul (calcPq ext st 0 0)
                                    (fneg lambda_reported)),
                     fmul viz (fmul (calcPq ext st 1 0)
                                    (fneg lambda_reported)))
           | _, _, _, _ => None
           end)
        (seq 0 (ceil_div N k)).
Proof.
  intros F SF ext sol N tx ty name0 lam rest k viz Hwf Hlen Himp Hk.
  rewrite (run_closed_form ext sol N tx ty name0 lam rest Hwf k viz Himp Hk).
  cbn [fst]. rewrite Hlen, Nat.min_id, !arrows_app.
  replace (arrows (if k * ceil_div N k <? N then [] else [Show]))
    with (@nil (F * F * F * F)) by (now destruct (_ <? _)).
  cbn [arrows flat_map app]. rewrite app_nil_r.
  rewrite <- (map_map (Nat.mul k)
                (fun i =>
                   match nth_error tx i, nth_error ty i, nth_error lam i,
                         nth_error (exportToStatesTrajectory ext sol) i with
                   | Some x, Some y, Some lambda_reported, Some st =>
                       Some (x, y,
                             fmul viz (fmul (calcPq ext st 0 0)
                                            (fneg lambda_reported)),
                             fmul viz (fmul (calcPq ext st 1 0)
                                            (fneg lambda_reported)))
                   | _, _, _, _ => None
                   end)).
  apply arrows_passes. intros i Hin.
  apply in_map_iff in Hin. destruct Hin as [j [<- Hj]]. apply in_seq in Hj.
  assert (Hlt : k * j < N) by (apply ceil_div_spec; [exact Hk | lia]).
  destruct (pass_returns ext sol N tx ty name0 lam rest Hwf (k * j))
    as (st & m & x & y & ax & ay & t & H1 & H2 & H3 & H4 & H5 & H6 & H7);
    [lia | lia |].
  rewrite loop_body_returned
    with (st := st) (m := m) (x := x) (y := y) (ax := ax) (ay := ay)
         (t := t) by assumption.
  rewrite nth_error_map in H2.
  destruct (nth_error lam (k * j)) as [lambda_reported |]; [| discriminate].
  injection H2 as <-. rewrite H1, H3, H4.
  eexists. split; reflexivity.
Qed.

Lemma arrows_follow_forces_witness :
  let ext := parabola_ext (F := float) true in
  let lam := constant_column (F := float) 21 (fdec (-3) 0) in
  let sol := parabola_solution 21 [(lambda_name, lam)] in
  map Some (arrows (fst (run ext sol 10 (fdec 10 (-3))))) =
  map (fun j =>
         match nth_error (parabola_tx 21) (10 * j),
               nth_error (parabola_ty 21) (10 * j),
               nth_error lam (10 * j),
               nth_error (exportToStatesTrajectory ext sol) (10 * j) with
         | Some x, Some y, Some lambda_reported, Some st =>
             Some (x, y,
                   fmul (fdec 10 (-3))
                        (fmul (calcPq ext st 0 0) (fneg lambda_reported)),
                   fmul (fdec 10 (-3))
                        (fmul (calcPq ext st 1 0) (fneg lambda_reported)))
         | _, _, _, _ => None
         end)
      (seq 0 (ceil_div 21 10)).
Proof.
  apply (arrows_follow_forces float Binary64 (parabola_ext true)
           (parabola_solution 21
              [(lambda_name, constant_column 21 (fdec (-3) 0))])
           21 (parabola_tx 21) (parabola_ty 21) lambda_name
           (constant_column 21 (fdec (-3) 0)) [] 10 (fdec 10 (-3))).
  - exact parabola_well_formed_21.
  - reflexivity.
  - reflexivity.
  - lia.
Defined.

(** * Binary64, as the interpreter computes *)

(** ** Signs in binary64 *)

Section Rounding.
Variables prec emax : Z.

Lemma shr_1_nonneg : forall mrs,
  (0 <= shr_m mrs)%Z -> (0 <= shr_m (shr_1 mrs))%Z.
Proof.
  intros [m r s] H. cbn in *. destruct m as [| [p | p |] | p]; cbn; lia.
Qed.

Lemma iter_shr_1_nonneg : forall p mrs,
  (0 <= shr_m mrs)%Z -> (0 <= shr_m (iter_pos shr_1 p mrs))%Z.
Proof.
  induction p as [p IH | p IH |]; intros mrs H; cbn.
  - apply IH, IH, shr_1_nonneg, H.
  - apply IH, IH, H.
  - apply shr_1_nonneg, H.
Qed.

Lemma shr_fexp_nonneg : forall m e l,
  (0 <= m)%Z -> (0 <= shr_m (fst (shr_fexp prec emax m e l)))%Z.
Proof.
  intros m e l H. unfold shr_fexp, shr.
  assert (H0 : (0 <= shr_m (shr_record_of_loc m l))%Z)
    by (destruct l as [| []]; exact H).
  destruct (_ - e)%Z; cbn [fst]; try exact H0.
  now apply iter_shr_1_nonneg.
Qed.

Lemma round_nearest_even_nonneg : forall m l,
  (0 <= m)%Z -> (0 <= round_nearest_even m l)%Z.
Proof.
  intros m l H. destruct l as [| []]; cbn; try lia.
  destruct (Z.even m); lia.
Qed.

(** A rounded value has the sign it was given, and rounding a mantissa
    that is not negative never gives NaN. *)
Lemma binary_round_aux_sign : forall s m e l,
  (0 <= m)%Z ->
  match binary_round_aux prec emax s m e l with
  | S754_nan => False
  | S754_zero s' | S754_infinity s' | S754_finite s' _ _ => s' = s
  end.
Proof.
  intros s m e l H. unfold binary_round_aux.
  pose proof (shr_fexp_nonneg m e l H) as H1.
  destruct (shr_fexp prec emax m e l) as [mrs' e']. cbn [fst] in H1.
  pose proof (shr_fexp_nonneg _ e' loc_Exact
                (round_nearest_even_nonneg _ (loc_of_shr_record mrs') H1))
    as H2.
  destruct (shr_fexp prec emax _ e' loc_Exact) as [mrs'' e'']. cbn [fst] in H2.
  destruct (shr_m mrs''); try lia; try reflexivity.
  now destruct (Z.leb _ _).
Qed.

Lemma binary_round_aux_negb : forall s m e l,
  binary_round_aux prec emax (negb s) m e l
  = SFopp (binary_round_aux prec emax s m e l).
Proof.
  intros s m e l. unfold binary_round_aux.
  destruct (shr_fexp prec emax m e l) as [mrs' e'].
  destruct (shr_fexp prec emax _ e' loc_Exact) as [mrs'' e''].
  destruct (shr_m mrs''); try reflexivity.
  now destruct (Z.leb _ _).
Qed.

Lemma SFmul_opp_r : forall x y,
  SFmul prec emax x (SFopp y) = SFopp (SFmul prec emax x y).
Proof.
  intros [sx | sx | | sx mx ex] [sy | sy | | sy my ey]; cbn;
    rewrite <- ?negb_xorb_r; try reflexivity.
  apply binary_round_aux_negb.
Qed.
End Rounding.

Lemma b64_opp_involutive : forall x : float, (- - x = x)%float.
Proof.
  intros x. apply Prim2SF_inj. rewrite !opp_spec.
  destruct (Prim2SF x); cbn; now rewrite ?negb_involutive.
Qed.

Lemma b64_mul_opp_r : forall a b : float, (a * - b = - (a * b))%float.
Proof.
  intros a b. apply Prim2SF_inj.
  rewrite opp_spec, !mul_spec, opp_spec. apply SFmul_opp_r.
Qed.

Lemma b64_abs_opp : forall x : float, abs (- x) = abs x.
Proof.
  intros x. apply Prim2SF_inj. rewrite !abs_spec, opp_spec.
  now destruct (Prim2SF x).
Qed.

Lemma b64_not_nan : forall x : float,
  is_nan x = false -> Prim2SF x <> S754_nan.
Proof.
  intros x H E. unfold is_nan in H. rewrite eqb_spec, E in H. discriminate.
Qed.

Lemma b64_abs_nonneg : forall x : float,
  is_nan x = false -> (0 <=? abs x)%float = true.
Proof.
  intros x H. apply b64_not_nan in H.
  rewrite leb_spec, abs_spec.
  replace (Prim2SF 0%float) with (S754_zero false) by reflexivity.
  destruct (Prim2SF x); try reflexivity. contradiction.
Qed.

(** [-mass * abs x], the gravity term of line 139, is not positive. *)
Lemma b64_gravity_term : forall x : float,
  is_nan x = false ->
  PrimFloat.leb (fmul (fneg mass) (fabs x)) (fdec 0 0) = true.
Proof.
  intros x H. apply b64_not_nan in H.
  change (PrimFloat.leb
            (PrimFloat.mul (fneg (mass (F := float))) (PrimFloat.abs x))
            (fdec (F := float) 0 0) = true).
  rewrite leb_spec, mul_spec, abs_spec.
  replace (Prim2SF (fdec (F := float) 0 0)) with (S754_zero false)
    by reflexivity.
  replace (Prim2SF (fneg (mass (F := float))))
    with (S754_finite true 4503599627370496 (-52)) by reflexivity.
  destruct (Prim2SF x) as [s | s | | s m e]; [reflexivity | reflexivity
                                               | contradiction |].
  unfold SF64mul, SFmul. cbn [SFabs xorb].
  pose proof (binary_round_aux_sign prec emax true
                (Z.pos (4503599627370496 * m)) (-52 + e) loc_Exact
                ltac:(lia)) as Hs.
  destruct (binary_round_aux _ _ _ _ _ _); try contradiction; subst;
    reflexivity.
Qed.

(** * The sign of the multiplier, through the run *)

Section RunSamples.
Context {F : Type} {SF : Scalar F}.
Variable ext : Externals F.
Variable sol : MocoTrajectory F.
Variable N : nat.
Variables tx ty : list F.
Variable name0 : string.
Variable lam : list F.
Variable rest : list (string * list F).
Hypothesis Hwf : well_formed ext sol N tx ty name0 lam rest.
Variable k : nat.
Variable viz : F.

Local Abbreviation time := (getTimeMat sol).
Local Abbreviation accelx := (InterpolatedUnivariateSpline ext time tx time 2).
Local Abbreviation accely := (InterpolatedUnivariateSpline ext time ty time 2).
Local Abbreviation statesTraj := (exportToStatesTrajectory ext sol).
Local Abbreviation body :=
  (loop_body ext viz time tx ty (map fneg lam) accelx accely statesTraj).

(** A pass in range draws the arrow of its index, and only that. *)
Lemma pass_arrow_expected :
  forall i, i < N -> i < List.length lam ->
    exists a,
      expected_arrow ext viz tx ty (map fneg lam) statesTraj i = Some a /\
      arrows (fst (body i)) = [a].
Proof.
  intros i Hi Hl.
  destruct (pass_returns ext sol N tx ty name0 lam rest Hwf i Hi Hl)
    as (st & m & x & y & ax & ay & t & H1 & H2 & H3 & H4 & H5 & H6 & H7).
  rewrite loop_body_returned
    with (st := st) (m := m) (x := x) (y := y) (ax := ax) (ay := ay)
         (t := t) by assumption.
  unfold expected_arrow. rewrite H1, H2, H3, H4.
  eexists. split; reflexivity.
Qed.

(** The arrows of a run, whatever the length of the multiplier column. *)
Lemma run_arrows :
  imports_succeed ext = true ->
  0 < k ->
  map Some (arrows (fst (run ext sol k viz))) =
  map (expected_arrow ext viz tx ty (map fneg lam) statesTraj)
      (map (Nat.mul k)
           (seq 0 (ceil_div (Nat.min (List.length lam) N) k))).
Proof.
  intros Himp Hk.
  rewrite (run_closed_form ext sol N tx ty name0 lam rest Hwf k viz Himp Hk).
  cbn [fst]. rewrite !arrows_app.
  replace (arrows (if k * ceil_div (Nat.min (List.length lam) N) k <? N
                   then [] else [Show])) with (@nil (F * F * F * F))
    by (now destruct (_ <? _)).
  cbn [arrows flat_map app]. rewrite app_nil_r.
  apply arrows_passes with (f := fun i => fst (body i)).
  intros i Hin. apply in_map_iff in Hin. destruct Hin as [j [<- Hj]].
  apply in_seq in Hj.
  assert (Hlt : k * j < Nat.min (List.length lam) N)
    by (apply ceil_div_spec; [exact Hk | lia]).
  apply pass_arrow_expected; lia.
Qed.

End RunSamples.

(** The [j]-th entry of an output read off sample by sample. *)
Lemma nth_error_sampled :
  forall (A : Type) (out : list A) (f : nat -> option A) (k c j : nat)
         (v : A),
    map Some out = map f (map (Nat.mul k) (seq 0 c)) ->
    j < c ->
    f (k * j) = Some v ->
    nth_error out j = Some v.
Proof.
  intros A out f k c j v Hmap Hj Hf.
  apply (f_equal (fun l => nth_error l j)) in Hmap.
  rewrite !nth_error_map in Hmap.
  rewrite (nth_error_nth' (seq 0 c) 0) in Hmap
    by (now rewrite List.length_seq).
  rewrite seq_nth in Hmap by exact Hj. cbn [option_map Nat.add] in Hmap.
  rewrite Hf in Hmap.
  destruct (nth_error out j) as [a |]; cbn in Hmap; congruence.
Qed.

(** The formulas with the reported column [lam] in place of the
    sign-adjusted one. *)
Lemma expected_line_reported :
  forall (F : Type) (SF : Scalar F) (ext : Externals F)
         (time lam ax ay : list F) (states : list (State ext)) (i : nat),
    expected_line ext time (map fneg lam) ax ay states i =
    match nth_error time i, nth_error lam i,
          nth_error ax i, nth_error ay i, nth_error states i with
    | Some t, Some lambda_reported, Some a_x, Some a_y, Some st =>
        Some (t,
              fsub (fmul (calcPq ext st 0 0) (fneg lambda_reported))
                   (fmul mass a_x),
              fsub (fadd (fmul (fneg mass) (g ext))
                         (fmul (calcPq ext st 1 0) (fneg lambda_reported)))
                   (fmul mass a_y))
    | _, _, _, _, _ => None
    end.
Proof.
  intros F SF ext time lam ax ay states i. unfold expected_line.
  rewrite nth_error_map.
  destruct (nth_error time i), (nth_error lam i), (nth_error ax i),
    (nth_error ay i), (nth_error states i); reflexivity.
Qed.

Lemma expected_arrow_reported :
  forall (F : Type) (SF : Scalar F) (ext : Externals F) (viz : F)
         (tx ty lam : list F) (states : list (State ext)) (i : nat),
    expected_arrow ext viz tx ty (map fneg lam) states i =
    match nth_error tx i, nth_error ty i, nth_error lam i,
          nth_error states i with
    | Some x, Some y, Some lambda_reported, Some st =>
        Some (x, y,
              fmul viz (fmul (calcPq ext st 0 0) (fneg lambda_reported)),
              fmul viz (fmul (calcPq ext st 1 0) (fneg lambda_reported)))
    | _, _, _, _ => None
    end.
Proof.
  intros F SF ext viz tx ty lam states i. unfold expected_arrow.
  rewrite nth_error_map.
  destruct (nth_error tx i), (nth_error ty i), (nth_error lam i),
    (nth_error states i); reflexivity.
Qed.

(** C2. In a run over a solution whose columns the script finds, the
    constraint force of every analysed sample is the Jacobian column times
    the negated multiplier that the solver reported for that sample,
    [F = J * (-lambda_reported)]: that force, scaled, is the arrow the run
    draws for the sample, and that force enters the residual line it
    prints.  Where a product with a negated factor is the negated product,
    as in binary64 and in exact arithmetic, the same outputs read
    [F = -(J * lambda_reported)]. *)
Theorem multiplier_negated_before_use :
  forall (F : Type) (SF : Scalar F) (ext : Externals F)
         (sol : MocoTrajectory F) (N : nat) (tx ty : list F)
         (name0 : string) (lam : list F) (rest : list (string * list F))
         (k : nat) (viz : F) (j : nat) (lambda_reported : F)
         (st : State ext) (x y ax ay t : F),
    well_formed ext sol N tx ty name0 lam rest ->
    imports_succeed ext = true ->
    0 < k ->
    nth_error lam (k * j) = Some lambda_reported ->
    nth_error (exportToStatesTrajectory ext sol) (k * j) = Some st ->
    nth_error tx (k * j) = Some x ->
    nth_error ty (k * j) = Some y ->
    nth_error (InterpolatedUnivariateSpline ext (getTimeMat sol) tx
                 (getTimeMat sol) 2) (k * j) = Some ax ->
    nth_error (InterpolatedUnivariateSpline ext (getTimeMat sol) ty
                 (getTimeMat sol) 2) (k * j) = Some ay ->
    nth_error (getTimeMat sol) (k * j) = Some t ->
    (forall a b : F, fmul a (fneg b) = fneg (fmul a b)) ->
    let J0 := calcPq ext st 0 0 in
    let J1 := calcPq ext st 1 0 in
    let out := fst (run ext sol k viz) in
    nth_error (arrows out) j =
      Some (x, y, fmul viz (fmul J0 (fneg lambda_reported)),
            fmul viz (fmul J1 (fneg lambda_reported))) /\
    nth_error (residual_lines out) j =
      Some (t,
            fsub (fmul J0 (fneg lambda_reported)) (fmul mass ax),
            fsub (fadd (fmul (fneg mass) (g ext))
                       (fmul J1 (fneg lambda_reported)))
                 (fmul mass ay)) /\
    nth_error (arrows out) j =
      Some (x, y, fmul viz (fneg (fmul J0 lambda_reported)),
            fmul viz (fneg (fmul J1 lambda_reported))) /\
    nth_error (residual_lines out) j =
      Some (t,
            fsub (fneg (fmul J0 lambda_reported)) (fmul mass ax),
            fsub (fadd (fmul (fneg mass) (g ext))
                       (fneg (fmul J1 lambda_reported)))
                 (fmul mass ay)).
Proof.
  intros F SF ext sol N tx ty name0 lam rest k viz j lambda_reported st
         x y ax ay t Hwf Himp Hk Hlam Hst Hx Hy Hax Hay Ht Hneg J0 J1 out.
  subst out.
  assert (HM : k * j < List.length lam)
    by (apply nth_error_Some; congruence).
  assert (HN : k * j < N).
  { pose proof Hwf as [_ _ _ _ _ _ _ _ Hs].
    rewrite <- Hs. apply nth_error_Some. congruence. }
  assert (Hj : j < ceil_div (Nat.min (List.length lam) N) k)
    by (apply ceil_div_spec; [exact Hk | lia]).
  assert (Harrow : nth_error (arrows (fst (run ext sol k viz))) j =
                   Some (x, y, fmul viz (fmul J0 (fneg lambda_reported)),
                         fmul viz (fmul J1 (fneg lambda_reported)))).
  { apply nth_error_sampled
      with (f := expected_arrow ext viz tx ty (map fneg lam)
                   (exportToStatesTrajectory ext sol))
           (k := k) (c := ceil_div (Nat.min (List.length lam) N) k).
    - apply (run_arrows ext sol N tx ty name0 lam rest Hwf k viz Himp Hk).
    - exact Hj.
    - rewrite expected_arrow_reported, Hx, Hy, Hlam, Hst. reflexivity. }
  assert (Hline : nth_error (residual_lines (fst (run ext sol k viz))) j =
                  Some (t,
                        fsub (fmul J0 (fneg lambda_reported)) (fmul mass ax),
                        fsub (fadd (fmul (fneg mass) (g ext))
                                   (fmul J1 (fneg lambda_reported)))
                             (fmul mass ay))).
  { apply nth_error_sampled
      with (f := expected_line ext (getTimeMat sol) (map fneg lam)
                   (InterpolatedUnivariateSpline ext (getTimeMat sol) tx
                      (getTimeMat sol) 2)
                   (InterpolatedUnivariateSpline ext (getTimeMat sol) ty
                      (getTimeMat sol) 2)
                   (exportToStatesTrajectory ext sol))
           (k := k) (c := ceil_div (Nat.min (List.length lam) N) k).
    - apply (run_residual_lines ext sol N tx ty name0 lam rest Hwf k viz
               Himp Hk).
    - exact Hj.
    - rewrite expected_line_reported, Ht, Hlam, Hax, Hay, Hst.
      reflexivity. }
  split; [exact Harrow |]. split; [exact Hline |].
  rewrite <- !Hneg. split; assumption.
Qed.

Lemma multiplier_negated_before_use_witness :
  let ext := parabola_ext (F := float) true in
  let lam := constant_column (F := float) 21 (fdec (-3) 0) in
  let sol := parabola_solution 21 [(lambda_name, lam)] in
  let viz := fdec (F := float) 10 (-3) in
  let st : State ext := (fdec 1 0, fdec 1 0) in
  let J0 := calcPq ext st 0 0 in
  let J1 := calcPq ext st 1 0 in
  let out := fst (run ext sol 10 viz) in
  nth_error (arrows out) 1 =
    Some (fdec 1 0, fdec 1 0, fmul viz (fmul J0 (fneg (fdec (-3) 0))),
          fmul viz (fmul J1 (fneg (fdec (-3) 0)))) /\
  nth_error (residual_lines out) 1 =
    Some (fdec 1 0,
          fsub (fmul J0 (fneg (fdec (-3) 0))) (fmul mass (fdec 2 0)),
          fsub (fadd (fmul (fneg mass) (g ext))
                     (fmul J1 (fneg (fdec (-3) 0))))
               (fmul mass (fdec 2 0))) /\
  nth_error (arrows out) 1 =
    Some (fdec 1 0, fdec 1 0, fmul viz (fneg (fmul J0 (fdec (-3) 0))),
          fmul viz (fneg (fmul J1 (fdec (-3) 0)))) /\
  nth_error (residual_lines out) 1 =
    Some (fdec 1 0,
          fsub (fneg (fmul J0 (fdec (-3) 0))) (fmul mass (fdec 2 0)),
          fsub (fadd (fmul (fneg mass) (g ext))
                     (fneg (fmul J1 (fdec (-3) 0))))
               (fmul mass (fdec 2 0))).
Proof.
  apply (multiplier_negated_before_use float Binary64 (parabola_ext true)
           (parabola_solution 21
              [(lambda_name, constant_column 21 (fdec (-3) 0))])
           21 (parabola_tx 21) (parabola_ty 21) lambda_name
           (constant_column 21 (fdec (-3) 0)) [] 10 (fdec 10 (-3)) 1
           (fdec (-3) 0) (fdec 1 0, fdec 1 0) (fdec 1 0) (fdec 1 0)
           (fdec 2 0) (fdec 2 0) (fdec 1 0)).
  - exact parabola_well_formed_21.
  - reflexivity.
  - lia.
  - reflexivity.
  - reflexivity.
  - reflexivity.
  - reflexivity.
  - reflexivity.
  - reflexivity.
  - reflexivity.
  - exact b64_mul_opp_r.
Defined.

(** * A multiplier column that is too short, in full *)





(** * Negating the multiplier column, in both arithmetics *)






(** * Gravity in the residual *)

(** C9, as stated, fails for a gravity vector whose second component is
    NaN: [abs] keeps it, so [g] is NaN, neither [0 <= g] nor
    [-mass * g <= 0] holds, and the residual [residualy] of a pass is
    NaN. *)
Lemma nan_gravity_is_kept :
  let ext := {| State := (float * float)%type;
                get_gravity := {| vec_x := fdec 0 0;
                                  vec_y := PrimFloat.nan;
                                  vec_z := fdec 0 0 |};
                imports_succeed := true;
                InterpolatedUnivariateSpline :=
                  InterpolatedUnivariateSpline (parabola_ext true);
                exportToStatesTrajectory :=
                  exportToStatesTrajectory (parabola_ext true);
                calcPq := calcPq (parabola_ext true) |} in
  PrimFloat.leb (fdec 0 0) (g ext) = false /\
  PrimFloat.leb (fmul (fneg mass) (g ext)) (fdec 0 0) = false /\
  exists evs l,
    loop_body ext (fdec 10 (-3)) [fdec 1 0] [fdec 1 0] [fdec 1 0]
              [fdec 3 0] [fdec 2 0] [fdec 12 0] [(fdec 1 0, fdec 1 0)] 0
    = (evs, Returned l) /\
    PrimFloat.is_nan (residualy l) = true.
Proof.
  cbv zeta. split; [reflexivity |]. split; [reflexivity |].
  do 2 eexists. split; [vm_compute; reflexivity | reflexivity].
Qed.

(** C9, amended. The gravity scalar of the residual is the absolute value
    of the second component of the model's gravity vector, so whenever that
    component is a number (not NaN) and whatever its sign, in binary64
    [0 <= g], the component and its opposite give the same [g], and the
    gravity term [-mass * g] that every pass adds into [residualy] is not
    positive. *)
Theorem gravity_term_never_positive :
  forall (ext : Externals float) (viz : float)
         (time tx ty multiplier accelx accely : list float)
         (statesTraj : list (State ext)) (i : nat)
         (st : State ext) (m x y ax ay t : float),
    nth_error statesTraj i = Some st ->
    nth_error multiplier i = Some m ->
    nth_error tx i = Some x ->
    nth_error ty i = Some y ->
    nth_error accelx i = Some ax ->
    nth_error accely i = Some ay ->
    nth_error time i = Some t ->
    PrimFloat.is_nan (Vec3_getitem (get_gravity ext) 1) = false ->
    exists evs l,
      loop_body ext viz time tx ty multiplier accelx accely statesTraj i
      = (evs, Returned l) /\
      residualy l =
        fsub (fadd (fmul (fneg mass)
                         (fabs (Vec3_getitem (get_gravity ext) 1)))
                   (fmul (calcPq ext st 1 0) m))
             (fmul mass ay) /\
      PrimFloat.leb (fdec 0 0) (g ext) = true /\
      fabs (fneg (Vec3_getitem (get_gravity ext) 1)) = g ext /\
      PrimFloat.leb (fmul (fneg mass)
                          (fabs (Vec3_getitem (get_gravity ext) 1)))
                    (fdec 0 0) = true.
Proof.
  intros ext viz time tx ty multiplier accelx accely statesTraj i
         st m x y ax ay t Hst Hm Hx Hy Hax Hay Ht Hnan.
  do 2 eexists.
  rewrite loop_body_returned
    with (st := st) (m := m) (x := x) (y := y) (ax := ax) (ay := ay)
         (t := t) by assumption.
  split; [reflexivity |]. split; [reflexivity |].
  split; [exact (b64_abs_nonneg _ Hnan) |].
  split; [exact (b64_abs_opp _) |].
  exact (b64_gravity_term _ Hnan).
Qed.

Lemma gravity_term_never_positive_witness :
  let ext := parabola_ext (F := float) true in
  exists evs l,
    loop_body ext (fdec 10 (-3)) [fdec 1 0] [fdec 1 0] [fdec 1 0]
              [fdec 3 0] [fdec 2 0] [fdec 12 0] [(fdec 1 0, fdec 1 0)] 0
    = (evs, Returned l) /\
    residualy l =
      fsub (fadd (fmul (fneg mass)
                       (fabs (Vec3_getitem (get_gravity ext) 1)))
                 (fmul (calcPq ext (fdec 1 0, fdec 1 0) 1 0) (fdec 3 0)))
           (fmul mass (fdec 12 0)) /\
    PrimFloat.leb (fdec 0 0) (g ext) = true /\
    fabs (fneg (Vec3_getitem (get_gravity ext) 1)) = g ext /\
    PrimFloat.leb (fmul (fneg mass)
                        (fabs (Vec3_getitem (get_gravity ext) 1)))
                  (fdec 0 0) = true.
Proof.
  apply (gravity_term_never_positive (parabola_ext true) (fdec 10 (-3))
           [fdec 1 0] [fdec 1 0] [fdec 1 0] [fdec 3 0]
           [fdec 2 0] [fdec 12 0] [(fdec 1 0, fdec 1 0)] 0
           (fdec 1 0, fdec 1 0) (fdec 3 0) (fdec 1 0) (fdec 1 0)
           (fdec 2 0) (fdec 12 0) (fdec 1 0));
    reflexivity.
Defined.

(** * Arrows and residual lines, in order *)

Lemma loop_trace_order :
  forall (F : Type) (evs : list (event F)) (o : outcome unit),
    loop_trace evs o ->
    evs =
    flat_map (fun p => sample_events (fst p) (snd p))
             (combine (arrows evs) (residual_lines evs))
      ++ map arrow_event
             (skipn (List.length (residual_lines evs)) (arrows evs)).
Proof.
  intros F evs o H. induction H as [| | | x y dx dy | a l evs o _ IH];
    try reflexivity.
  destruct (arrows_sample_events F a l evs) as [-> ->].
  cbn [combine flat_map fst snd List.length skipn].
  rewrite <- app_assoc. now rewrite <- IH.
Qed.

Lemma filter_samples :
  forall (F : Type) (evs : list (event F)),
    forallb is_sample evs = true -> filter is_sample evs = evs.
Proof.
  intros F evs. induction evs as [| ev evs IH]; [reflexivity |].
  cbn [forallb filter]. intros H. apply andb_prop in H as [Hev Hevs].
  rewrite Hev. now rewrite IH.
Qed.

(** X5. In any run the arrows and the residual lines come in this order:
    the arrow of a sample, directly followed by its residual line, sample
    after sample; an arrow is left without its line only as the last of
    them, and only when the run raised [IndexError] between drawing it and
    printing the line. *)
Theorem arrows_precede_residual_lines :
  forall (F : Type) (SF : Scalar F) (ext : Externals F)
         (sol : MocoTrajectory F) (k : nat) (viz : F),
    let out := run ext sol k viz in
    let A := arrows (fst out) in
    let L := residual_lines (fst out) in
    filter is_sample (fst out) =
    flat_map (fun p => sample_events (fst p) (snd p)) (combine A L)
      ++ map arrow_event (skipn (List.length L) A) /\
    (List.length A = List.length L \/
     (List.length A = S (List.length L) /\ snd out = Raised IndexError)).
Proof.
  intros F SF ext sol k viz out A L. subst A L out.
  destruct (run_cases F SF ext sol k viz)
    as [[_ Hrun] | [(_ & _ & e & Hrun) | (_ & Hrun)]].
  - rewrite Hrun. split; [reflexivity | now left].
  - rewrite Hrun. split; [reflexivity | now left].
  - destruct Hrun as (tx & ty & name0 & lam & rest & evs & o & _ & _ & _
                      & _ & Htrace & _ & Hrun).
    rewrite Hrun. cbn [fst snd].
    assert (Hend : arrows (match o with
                           | Returned _ => [Show]
                           | _ => []
                           end) = (@nil (F * F * F * F)) /\
                   residual_lines (match o with
                                   | Returned _ => [Show]
                                   | _ => []
                                   end) = (@nil (F * F * F)) /\
                   filter is_sample (match o with
                                     | Returned _ => [Show]
                                     | _ => []
                                     end) = (@nil (event F)))
      by (destruct o; now repeat split).
    destruct Hend as (Ea & El & Ef).
    rewrite !arrows_app, !residual_lines_app, !filter_app, Ea, El, Ef.
    cbn [arrows residual_lines flat_map filter is_sample app].
    rewrite !app_nil_r.
    rewrite (filter_samples F evs (loop_trace_samples F evs o Htrace)).
    split.
    + exact (loop_trace_order F evs o Htrace).
    + exact (loop_trace_counts F evs o Htrace).
Qed.

(** * The whole output of a complete run *)

(** X7. With pylab at hand, columns of one length [N] and a stride
    [k > 0], the whole output is, in this order: the figure, the count of
    the multiplier columns, the aspect, the curve of the full [tx] and [ty]
    columns, then for each of the [ceil (N / k)] samples its arrow directly
    followed by its residual line, then [pl.show()]. *)
Theorem complete_run_order :
  forall (F : Type) (SF : Scalar F) (ext : Externals F)
         (sol : MocoTrajectory F) (N : nat) (tx ty : list F)
         (name0 : string) (lam : list F) (rest : list (string * list F))
         (k : nat) (viz : F),
    well_formed ext sol N tx ty name0 lam rest ->
    List.length lam = N ->
    imports_succeed ext = true ->
    0 < k ->
    let out := fst (run ext sol k viz) in
    out =
    [Figure; PrintNumberOfMultipliers (List.length (multiplier_columns sol));
     SetAspectEqual; Plot tx ty]
      ++ flat_map (fun p => sample_events (fst p) (snd p))
                  (combine (arrows out) (residual_lines out))
      ++ [Show] /\
    List.length (arrows out) = ceil_div N k /\
    List.length (residual_lines out) = ceil_div N k.
Proof.
  intros F SF ext sol N tx ty name0 lam rest k viz Hwf Hlen Himp Hk out.
  subst out.
  pose proof (run_residual_lines ext sol N tx ty name0 lam rest Hwf k viz
                Himp Hk) as Hlines.
  pose proof (run_arrows ext sol N tx ty name0 lam rest Hwf k viz
                Himp Hk) as Harrows.
  rewrite Hlen, Nat.min_id in Hlines, Harrows.
  apply (f_equal (@List.length _)) in Hlines, Harrows.
  rewrite !List.length_map, List.length_seq in Hlines, Harrows.
  split; [| split; assumption].
  clear Hlines Harrows.
  rewrite (run_closed_form ext sol N tx ty name0 lam rest Hwf k viz Himp Hk).
  cbn [fst]. rewrite Hlen, Nat.min_id.
  assert (Hend : (k * ceil_div N k <? N) = false)
    by (apply Nat.ltb_ge; now apply ceil_div_reached).
  rewrite Hend.
  pose proof Hwf as [_ _ _ Hm _ _ _ _ _]. rewrite Hm. cbn [List.length].
  rewrite !arrows_app, !residual_lines_app.
  cbn [arrows residual_lines flat_map app]. rewrite !app_nil_r.
  do 4 f_equal. apply (f_equal (fun evs => evs ++ [Show])).
  apply passes_interleave. intros i Hin.
  apply in_map_iff in Hin. destruct Hin as [j [<- Hj]]. apply in_seq in Hj.
  assert (Hlt : k * j < N) by (apply ceil_div_spec; [exact Hk | lia]).
  destruct (pass_returns ext sol N tx ty name0 lam rest Hwf (k * j))
    as (st & m & x & y & ax & ay & t & H1 & H2 & H3 & H4 & H5 & H6 & H7);
    [lia | lia |].
  rewrite loop_body_returned
    with (st := st) (m := m) (x := x) (y := y) (ax := ax) (ay := ay)
         (t := t) by assumption.
  cbn [fst].
  exists (x, y, fmul viz (fmul (calcPq ext st 0 0) m),
          fmul viz (fmul (calcPq ext st 1 0) m)).
  eexists (t, _, _). reflexivity.
Qed.

Lemma complete_run_order_witness :
  let sol := parabola_solution (F := float) 21
               [(lambda_name, constant_column 21 (fdec (-3) 0))] in
  let out := fst (run (parabola_ext true) sol 10 (fdec 10 (-3))) in
  out =
  [Figure; PrintNumberOfMultipliers (List.length (multiplier_columns sol));
   SetAspectEqual; Plot (parabola_tx 21) (parabola_ty 21)]
    ++ flat_map (fun p => sample_events (fst p) (snd p))
                (combine (arrows out) (residual_lines out))
    ++ [Show] /\
  List.length (arrows out) = ceil_div 21 10 /\
  List.length (residual_lines out) = ceil_div 21 10.
Proof.
  apply (complete_run_order float Binary64 (parabola_ext true)
           (parabola_solution 21
              [(lambda_name, constant_column 21 (fdec (-3) 0))])
           21 (parabola_tx 21) (parabola_ty 21) lambda_name
           (constant_column 21 (fdec (-3) 0)) [] 10 (fdec 10 (-3))).
  - exact parabola_well_formed_21.
  - reflexivity.
  - reflexivity.
  - lia.
Defined.
